(** * ZeissMTBCan29Bridge: the CAN29 frame codec and the forwarding loop

    A shallow embedding of [port_emulator.py]:
    - [encode_can29_message], the byte-stuffing encoder;
    - [Can29SerialReceiverProtocol.__next__], the frame decoder working on
      the shared input buffer;
    - [CANCommunication.send_raw] / [send_message], the path to the backend;
    - [msg_cb_fun] and the body of the loop of [start_can_forwarder].

    Bytes are integers ([Z]); a [bytearray] is a list of them.  The decoder's
    buffer is threaded explicitly.  The vendor backend and the serial port are
    external: calls to them are recorded as [event]s of a trace, and Python
    exceptions are the [Raise] results of a small trace-and-error monad. *)

From Stdlib Require Import ZArith List Bool Lia.
From Stdlib Require String HexString Ascii.
Import ListNotations.
Open Scope Z_scope.

Set Implicit Arguments.

(** ** Data model *)

Definition bytearray := list Z.

Definition is_byte (c : Z) : Prop := 0 <= c < 256.

Definition DLE : Z := 0x10.
Definition STX : Z := 0x02.
Definition ETX : Z := 0x03.

(** Exceptions the modelled code can raise. *)
Inductive exn : Type :=
| IndexError
| AssertionError
| RuntimeError (c : Z)
| StopIteration
| AttributeError.

(** Calls to the external collaborators, in program order. *)
Inductive event : Type :=
| PrintInbound (raw_message : bytearray)     (* print(f'> ...')        *)
| PrintOutbound (raw_message : bytearray)    (* print(f'< ...')        *)
| PrintFake                                  (* print('Fake reply!')   *)
| LogDebug                                   (* logger.debug(...)      *)
| PrintFakeReply (reply : bytearray)         (* print('<f', ...)       *)
| SerialWrite (data : bytearray)             (* rt.write(data)         *)
| FlushOutput                                (* serial.flushOutput()   *)
| SendMessage (destination_addr source_addr cmd_class cmd_number
               sub_nr proc_id : Z) (extra_data : bytearray)
                                             (* self._d.SendMessage(CAN29, ...) *)
| Sleep.                                     (* time.sleep(0.01)       *)

Definition trace := list event.

(** ** A trace-and-error monad *)

Inductive result (A : Type) : Type :=
| Ok (a : A)
| Raise (e : exn).
Arguments Raise {A} e.

Definition M (A : Type) : Type := (trace * result A)%type.

Definition ret {A} (a : A) : M A := ([], Ok a).
Definition raise {A} (e : exn) : M A := ([], Raise e).
Definition emit (ev : event) : M unit := ([ev], Ok tt).

Definition bind {A B} (m : M A) (f : A -> M B) : M B :=
  match m with
  | (t, Ok a) => let (t', r) := f a in (t ++ t', r)
  | (t, Raise e) => (t, Raise e)
  end.

Notation "x <- m ;; k" := (bind m (fun x => k))
  (at level 61, m at next level, right associativity).
Notation "m ;;; k" := (bind m (fun _ => k))
  (at level 61, right associativity).

(** [b[i]]: an out-of-range index raises [IndexError]. *)
Definition getitem (b : bytearray) (i : nat) : M Z :=
  match nth_error b i with
  | Some c => ret c
  | None => raise IndexError
  end.

(** [assert cond] *)
Definition assert_ (cond : bool) : M unit :=
  if cond then ret tt else raise AssertionError.

(** Python's short-circuit [a and b] on booleans. *)
Definition and_ (a b : M bool) : M bool :=
  x <- a ;; if x then b else ret false.

(** Projections of a trace. *)
Definition serial_writes (t : trace) : list bytearray :=
  flat_map (fun ev => match ev with SerialWrite d => [d] | _ => [] end) t.

Definition is_backend_send (ev : event) : bool :=
  match ev with SendMessage _ _ _ _ _ _ _ => true | _ => false end.

Definition backend_sends (t : trace) : list event := filter is_backend_send t.

(** ** The backend port *)

Module CANCommunication.

(** What the forwarder reads from the backend object: the device ids found
    at construction and [_d.Simulated]. *)
Record t : Type := mk {
  device_ids : list Z;
  Simulated : bool
}.

(** [self._device_ids = tuple(can_id for can_id in range(255) if found)] *)
Definition find_device_ids (found : Z -> bool) : list Z :=
  filter found (map Z.of_nat (seq 0 255)).

(** [extra_data] is [None] or a byte sequence; an empty or absent one is
    sent as the empty string. *)
Definition send_message (destination_addr source_addr cmd_class cmd_number
                         sub_nr proc_id : Z)
                        (extra_data : option bytearray) : M unit :=
  let extra_data :=
    match extra_data with
    | Some (c :: x) => c :: x
    | _ => []
    end in
  emit (SendMessage destination_addr source_addr cmd_class cmd_number
                    sub_nr proc_id extra_data).

Definition send_raw (bytes : bytearray) : M unit :=
  b2 <- getitem bytes 2 ;;
  assert_ (b2 =? Z.of_nat (length bytes) - 5) ;;;
  destination_addr <- getitem bytes 0 ;;
  source_addr <- getitem bytes 1 ;;
  cmd_class <- getitem bytes 3 ;;
  cmd_number <- getitem bytes 4 ;;
  proc_id <- getitem bytes 5 ;;
  sub_nr <- getitem bytes 6 ;;
  let extra_data :=
    if (6 <? length bytes)%nat then Some (skipn 7 bytes) else None in
  send_message destination_addr source_addr cmd_class cmd_number
               sub_nr proc_id extra_data.

End CANCommunication.

(** ** The encoder *)

(** The body of [for c in raw_message]: appends to [escaped_msg]. *)
Definition encode_step (escaped_msg : bytearray) (c : Z) : bytearray :=
  let escaped_msg :=
    if (c =? 0x10) || (c =? 0x0d) then escaped_msg ++ [0x10] else escaped_msg in
  escaped_msg ++ [c].

Definition encode_can29_message (raw_message : bytearray) : bytearray :=
  let escaped_msg := [0x10; 0x02] in
  let escaped_msg := fold_left encode_step raw_message escaped_msg in
  escaped_msg ++ [0x10; 0x03].

(** The encoder as the specification words it: the start marker, every byte
    with an extra 0x10 in front of a 0x10 or 0x0d, the end marker. *)
Definition stuff_byte (c : Z) : bytearray :=
  if (c =? 0x10) || (c =? 0x0d) then [0x10; c] else [c].

Definition stuff (raw_message : bytearray) : bytearray :=
  flat_map stuff_byte raw_message.

Definition encode_spec (raw_message : bytearray) : bytearray :=
  [0x10; 0x02] ++ stuff raw_message ++ [0x10; 0x03].

(** ** The decoder *)

Module Can29SerialReceiverProtocol.

(** The two locals of [__next__] that live across loop iterations. *)
Record locals : Type := mkLocals {
  ten_found : bool;
  message_data : option bytearray
}.

Definition fresh : locals := mkLocals false None.

Definition append (message_data : option bytearray) (c : Z)
  : option bytearray :=
  match message_data with
  | Some md => Some (md ++ [c])
  | None => None
  end.

(** How one pass of [for i, c in enumerate(self._input_buffer)] ends. *)
Inductive scan_result : Type :=
| Returned (message_data : bytearray) (input_buffer : bytearray)
| Raised (c : Z) (input_buffer : bytearray)
| Exhausted (message_data : option bytearray).

Inductive body_result : Type :=
| Continue (l : locals)
| Stop (r : scan_result).

(** One execution of the loop body at index [i] on byte [c];
    [input_buffer] is the buffer the loop iterates over. *)
Definition loop_body (input_buffer : bytearray) (i : nat) (l : locals)
                     (c : Z) : body_result :=
  if ten_found l then
    (* ten_found = False *)
    if c =? 0x02 then Continue (mkLocals false (Some []))
    else
      (* if c == 0x03: self._input_buffer = self._input_buffer[i+1:] *)
      let input_buffer' :=
        if c =? 0x03 then skipn (i + 1) input_buffer else input_buffer in
      match (if c =? 0x03 then message_data l else None) with
      | Some md => Stop (Returned md input_buffer')
      | None =>
          if (c =? 0x0d) || (c =? 0x10)
          then Continue (mkLocals false (append (message_data l) c))
          else Stop (Raised c input_buffer')
      end
  else if c =? 0x10 then Continue (mkLocals true (message_data l))
  else Continue (mkLocals false (append (message_data l) c)).

Fixpoint scan_loop (input_buffer : bytearray) (i : nat) (l : locals)
                   (rest : bytearray) : scan_result :=
  match rest with
  | [] => Exhausted (message_data l)
  | c :: rest' =>
      match loop_body input_buffer i l c with
      | Continue l' => scan_loop input_buffer (S i) l' rest'
      | Stop r => r
      end
  end.

(** One iteration of [while True]: fresh locals, one pass over the buffer. *)
Definition scan (input_buffer : bytearray) : scan_result :=
  scan_loop input_buffer 0 fresh input_buffer.

(** The locals after the loop body has run over [pre] without leaving the
    loop; [None] when it returned or raised on the way. *)
Fixpoint run (l : locals) (pre : bytearray) : option locals :=
  match pre with
  | [] => Some l
  | c :: pre' =>
      match loop_body [] 0 l c with
      | Continue l' => run l' pre'
      | Stop _ => None
      end
  end.

Definition data_received (input_buffer data : bytearray) : bytearray :=
  input_buffer ++ data.

(** What a call of [__next__] does. [Spinning]: the call is still inside
    [while True] when the modelled schedule of arrivals ends. *)
Inductive outcome : Type :=
| Message (message_data : bytearray)
| Raises (e : exn)
| Spinning.

(** [__next__].  The lock is released between two iterations of
    [while True], where the reader thread may extend the buffer:
    [arrivals] lists the data it appends at each such point ([[]] for
    nothing).  The result carries the buffer and the arrivals left. *)
Fixpoint __next__ (arrivals : list bytearray) (input_buffer : bytearray)
  : outcome * bytearray * list bytearray :=
  match scan input_buffer with
  | Returned md input_buffer' => (Message md, input_buffer', arrivals)
  | Raised c input_buffer' => (Raises (RuntimeError c), input_buffer', arrivals)
  | Exhausted None => (Raises StopIteration, input_buffer, arrivals)
  | Exhausted (Some _) =>
      match arrivals with
      | [] => (Spinning, input_buffer, [])
      | data :: arrivals' =>
          __next__ arrivals' (data_received input_buffer data)
      end
  end.

End Can29SerialReceiverProtocol.

(** ** The forwarder *)

Module Forwarder.

Import Can29SerialReceiverProtocol.

(** [can_input_protocol.serial]: [with rt as can_input_protocol] binds the
    protocol object, an instance of [Can29SerialReceiverProtocol]; the class
    sets [_input_buffer] and [_lock] only, and the serial port is an
    attribute of the reader thread [rt], so the lookup raises. *)
Definition can_input_protocol_serial : M unit := raise AttributeError.

(** The callback handed to the backend: the message is printed and written
    as it is, [rt.write(bytes(raw_message))]; then, under the lock,
    [can_input_protocol.serial.flushOutput()]. *)
Definition msg_cb_fun (raw_message : bytearray) : M unit :=
  emit (PrintOutbound raw_message) ;;;
  emit (SerialWrite raw_message) ;;;
  can_input_protocol_serial ;;;
  emit FlushOutput.

(** The condition of the [if] in the loop, with Python's short-circuit
    evaluation: an index is only read when everything before it held. *)
Definition enumeration_trigger (zeiss_can_port : CANCommunication.t)
                               (raw_message : bytearray) : M bool :=
  and_ (ret (CANCommunication.Simulated zeiss_can_port))
    (and_ (c <- getitem raw_message 3 ;; ret (c =? 0x15))
      (and_ (c <- getitem raw_message 4 ;; ret (c =? 0xa0))
            (c <- getitem raw_message 6 ;; ret (c =? 0xfe)))).

(** [for i, dev_id in enumerate(dev_ids)], entered at index [i] with
    [rest] still to visit; [n] is [len(dev_ids)]. *)
Fixpoint fake_replies (raw_message : bytearray) (n i : nat)
                      (rest : list Z) : M unit :=
  match rest with
  | [] => ret tt
  | dev_id :: rest' =>
      r1 <- getitem raw_message 1 ;;
      r0 <- getitem raw_message 0 ;;
      r4 <- getitem raw_message 4 ;;
      r5 <- getitem raw_message 5 ;;
      r6 <- getitem raw_message 6 ;;
      let reply :=
        [r1; r0; 0x04; if (i + 1 =? n)%nat then 0x09 else 0x05;
         r4; r5; r6; dev_id; 3] in
      emit (PrintFakeReply reply) ;;;
      emit (SerialWrite (encode_can29_message reply)) ;;;
      fake_replies raw_message n (S i) rest'
  end.

(** The body of [for raw_message in can_input_protocol]. *)
Definition process_message (zeiss_can_port : CANCommunication.t)
                           (raw_message : bytearray) : M unit :=
  emit (PrintInbound raw_message) ;;;
  fake <- enumeration_trigger zeiss_can_port raw_message ;;
  if fake then
    emit PrintFake ;;;
    emit LogDebug ;;;
    let dev_ids := CANCommunication.device_ids zeiss_can_port in
    fake_replies raw_message (length dev_ids) 0 dev_ids
  else
    CANCommunication.send_raw raw_message.

(** Where the forwarder is when the model stops following it. *)
Inductive status : Type :=
| Crashed (e : exn)   (* an exception left [start_can_forwarder] *)
| Blocked             (* inside [__next__], rescanning a partial frame *)
| Running.            (* still looping: the fuel of the model ran out *)

Record run_state : Type := mkRun {
  log : trace;
  state : status;
  input_buffer : bytearray
}.

(** [while True: for raw_message in can_input_protocol: ...; sleep].
    Each unit of fuel is one call of [__next__]: a message is processed and
    the [for] goes on; [StopIteration] ends the [for], the loop sleeps and
    starts the next [for]; any other exception leaves the function. *)
Fixpoint start_can_forwarder (fuel : nat)
                             (zeiss_can_port : CANCommunication.t)
                             (arrivals : list bytearray)
                             (input_buffer : bytearray) : run_state :=
  match fuel with
  | O => mkRun [] Running input_buffer
  | S fuel' =>
      match __next__ arrivals input_buffer with
      | (Message raw_message, input_buffer', arrivals') =>
          match process_message zeiss_can_port raw_message with
          | (t, Ok _) =>
              let r := start_can_forwarder fuel' zeiss_can_port arrivals'
                                           input_buffer' in
              mkRun (t ++ log r) (state r) (Forwarder.input_buffer r)
          | (t, Raise e) => mkRun t (Crashed e) input_buffer'
          end
      | (Raises StopIteration, input_buffer', arrivals') =>
          let r := start_can_forwarder fuel' zeiss_can_port arrivals'
                                       input_buffer' in
          mkRun (Sleep :: log r) (state r) (Forwarder.input_buffer r)
      | (Raises e, input_buffer', _) => mkRun [] (Crashed e) input_buffer'
      | (Spinning, input_buffer', _) => mkRun [] Blocked input_buffer'
      end
  end.

End Forwarder.

Import Can29SerialReceiverProtocol Forwarder.

Unset Implicit Arguments.

(** [m] holds the byte [a] immediately followed by the byte [b]. *)
Fixpoint contains_pair (a b : Z) (m : bytearray) : bool :=
  match m with
  | [] => false
  | x :: t =>
      match t with
      | y :: _ => ((x =? a) && (y =? b)) || contains_pair a b t
      | [] => false
      end
  end.

(** The bytes allowed after an escape marker. *)
Definition escapable (c : Z) : bool :=
  (c =? 0x02) || (c =? 0x03) || (c =? 0x0d) || (c =? 0x10).

(** The [i]-th synthetic enumeration reply, as the specification words it. *)
Definition enumeration_reply (source_addr destination_addr cmd_number proc_id
                              sub_nr : Z) (last : bool) (device_id : Z)
  : bytearray :=
  [source_addr; destination_addr; 0x04; if last then 0x09 else 0x05;
   cmd_number; proc_id; sub_nr; device_id; 3].

(** The replies for the devices [rest], the first of them at index [i] of a
    device list of length [n]. *)
Fixpoint enumeration_replies (source_addr destination_addr cmd_number proc_id
                              sub_nr : Z) (n i : nat) (rest : list Z)
  : list bytearray :=
  match rest with
  | [] => []
  | d :: rest' =>
      enumeration_reply source_addr destination_addr cmd_number proc_id sub_nr
                        (i =? n - 1)%nat d
      :: enumeration_replies source_addr destination_addr cmd_number proc_id
                             sub_nr n (S i) rest'
  end.

(** ** Logging *)

(** [' '.join(map(hex, barray))]: [hex] writes an integer as [0x] followed by
    its lower-case hexadecimal digits, as [HexString.of_Z] does. *)
Definition bytearray_to_str (barray : bytearray) : String.string :=
  String.concat (String.String Ascii.Space String.EmptyString)
                (map HexString.of_Z barray).

(** [s] holds no space character. *)
Fixpoint no_space (s : String.string) : bool :=
  match s with
  | String.EmptyString => true
  | String.String c s' => negb (Ascii.eqb c Ascii.Space) && no_space s'
  end.

(** [s] is a word: not empty and without a space. *)
Definition is_word (s : String.string) : bool :=
  match s with
  | String.EmptyString => false
  | String.String _ _ => no_space s
  end.

(** * The encoder *)

Lemma fold_encode_step (m acc : bytearray) :
  fold_left encode_step m acc = acc ++ stuff m.
Proof.
  revert acc; induction m as [|c m IH]; intros acc; simpl.
  - now rewrite app_nil_r.
  - rewrite IH. unfold encode_step, stuff_byte.
    destruct ((c =? 0x10) || (c =? 0x0d)); now rewrite <- !app_assoc.
Qed.

Lemma encode_can29_message_spec (m : bytearray) :
  encode_can29_message m = encode_spec m.
Proof.
  unfold encode_can29_message, encode_spec.
  rewrite fold_encode_step. now rewrite <- app_assoc.
Qed.

Lemma stuff_app (a b : bytearray) : stuff (a ++ b) = stuff a ++ stuff b.
Proof. apply flat_map_app. Qed.

(** C8. For every input byte sequence, the empty one included,
    [encode_can29_message] produces [0x10, 0x02], then each input byte in
    order with an extra 0x10 right before every byte equal to 0x10 or 0x0d,
    then [0x10, 0x03]; it is a total function (it never fails).  In
    particular the three escape examples of the specification hold. *)
Theorem C8_encoder_algorithm :
  (forall m : bytearray,
      encode_can29_message m
      = [0x10; 0x02]
          ++ flat_map (fun c => if (c =? 0x10) || (c =? 0x0d)
                                then [0x10; c] else [c]) m
          ++ [0x10; 0x03])
  /\ encode_can29_message [] = [0x10; 0x02; 0x10; 0x03]
  /\ encode_can29_message [0x10] = [0x10; 0x02; 0x10; 0x10; 0x10; 0x03]
  /\ encode_can29_message [0x0d] = [0x10; 0x02; 0x10; 0x0d; 0x10; 0x03]
  /\ encode_can29_message [0x41] = [0x10; 0x02; 0x41; 0x10; 0x03].
Proof.
  split; [|repeat split].
  intros m. rewrite encode_can29_message_spec. reflexivity.
Qed.

(** The encoder only appends bytes: on a sequence of bytes every [append]
    succeeds and the frame is a sequence of bytes. *)
Ltac bytes_forall :=
  repeat (apply Forall_cons; [assumption|]); apply Forall_nil.

Lemma encode_can29_message_bytes (m : bytearray) :
  Forall is_byte m -> Forall is_byte (encode_can29_message m).
Proof.
  intros H. rewrite encode_can29_message_spec. unfold encode_spec.
  assert (B10 : is_byte 0x10) by (unfold is_byte; lia).
  assert (B02 : is_byte 0x02) by (unfold is_byte; lia).
  assert (B03 : is_byte 0x03) by (unfold is_byte; lia).
  apply Forall_app. split; [bytes_forall|].
  apply Forall_app. split; [|bytes_forall].
  induction H as [|c m Hc _ IH]; simpl; [constructor|].
  apply Forall_app. split; [|assumption].
  unfold stuff_byte.
  destruct ((c =? 0x10) || (c =? 0x0d)); bytes_forall.
Qed.

(** The device ids collected at construction lie in 0..254. *)
Lemma find_device_ids_range (found : Z -> bool) (d : Z) :
  In d (CANCommunication.find_device_ids found) -> 0 <= d < 255.
Proof.
  unfold CANCommunication.find_device_ids. intros Hd.
  apply filter_In in Hd. destruct Hd as [Hd _].
  apply in_map_iff in Hd. destruct Hd as [n [Hn Hin]].
  apply in_seq in Hin. subst d. lia.
Qed.

(** * The decoder: general facts about one pass over the buffer *)

(** Whether the loop body goes on, and with which locals, depends neither on
    the buffer nor on the index. *)
Lemma loop_body_continue buf i buf' i' l c l' :
  loop_body buf i l c = Continue l' -> loop_body buf' i' l c = Continue l'.
Proof.
  unfold loop_body.
  destruct (ten_found l); [|now destruct (c =? 0x10)].
  destruct (c =? 0x02); [easy|].
  destruct (c =? 0x03).
  - destruct (message_data l); [discriminate|].
    now destruct ((c =? 0x0d) || (c =? 0x10)).
  - now destruct ((c =? 0x0d) || (c =? 0x10)).
Qed.

Lemma run_app l a b :
  run l (a ++ b) = match run l a with Some l' => run l' b | None => None end.
Proof.
  revert l; induction a as [|c a IH]; intros l; simpl; [reflexivity|].
  destruct (loop_body [] 0 l c); [apply IH | reflexivity].
Qed.

(** A pass that walks over [pre] without leaving the loop goes on with the
    rest of the buffer, from the locals [run] computes. *)
Lemma scan_loop_app buf i l pre rest l' :
  run l pre = Some l' ->
  scan_loop buf i l (pre ++ rest) = scan_loop buf (i + length pre) l' rest.
Proof.
  revert i l; induction pre as [|c pre IH]; intros i l H; simpl in *.
  - injection H as <-. now rewrite Nat.add_0_r.
  - destruct (loop_body [] 0 l c) as [l1|] eqn:E; [|discriminate].
    rewrite (loop_body_continue [] 0%nat buf i _ _ _ E).
    rewrite (IH (S i) l1 H). f_equal. lia.
Qed.

Lemma scan_app pre rest l :
  run fresh pre = Some l ->
  scan (pre ++ rest) = scan_loop (pre ++ rest) (length pre) l rest.
Proof. intros H. unfold scan. now rewrite (scan_loop_app _ 0%nat _ _ rest _ H). Qed.

Lemma scan_exhausted buf l :
  run fresh buf = Some l -> scan buf = Exhausted (message_data l).
Proof.
  intros H. rewrite <- (app_nil_r buf) at 1. now rewrite (scan_app _ [] _ H).
Qed.

(** Inside a frame, the stuffed form of [m] appends [m] to the message. *)
Lemma run_stuff m acc :
  run (mkLocals false (Some acc)) (stuff m)
  = Some (mkLocals false (Some (acc ++ m))).
Proof.
  revert acc; induction m as [|c m IH]; intros acc; simpl.
  - now rewrite app_nil_r.
  - rewrite run_app.
    assert (E : run (mkLocals false (Some acc)) (stuff_byte c)
                = Some (mkLocals false (Some (acc ++ [c])))).
    { unfold stuff_byte.
      destruct (c =? 0x10) eqn:E10; simpl.
      - apply Z.eqb_eq in E10; subst c. reflexivity.
      - destruct (c =? 0x0d) eqn:E0d; simpl.
        + apply Z.eqb_eq in E0d; subst c. reflexivity.
        + unfold loop_body; simpl. now rewrite E10. }
    rewrite E, IH. now rewrite <- app_assoc.
Qed.

Lemma run_frame_open m :
  run fresh ([0x10; 0x02] ++ stuff m) = Some (mkLocals false (Some m)).
Proof. rewrite run_app. simpl run at 2. apply run_stuff. Qed.

Lemma skipn_past {A} (pre : list A) x rest :
  skipn (length pre + 1) (pre ++ x :: rest) = rest.
Proof.
  replace (pre ++ x :: rest) with ((pre ++ [x]) ++ rest)
    by now rewrite <- app_assoc.
  replace (length pre + 1)%nat with (length (pre ++ [x]))
    by (rewrite length_app; reflexivity).
  rewrite skipn_app, skipn_all, Nat.sub_diag. reflexivity.
Qed.

(** A pass over a buffer that starts with an encoded frame returns the
    message and leaves what follows the frame. *)
Lemma scan_encoded_frame m tail :
  scan (encode_can29_message m ++ tail) = Returned m tail.
Proof.
  rewrite encode_can29_message_spec. unfold encode_spec.
  replace (([0x10; 0x02] ++ stuff m ++ [0x10; 0x03]) ++ tail)
    with ((([0x10; 0x02] ++ stuff m) ++ [0x10]) ++ 0x03 :: tail)
    by (rewrite <- !app_assoc; reflexivity).
  assert (H : run fresh (([0x10; 0x02] ++ stuff m) ++ [0x10])
              = Some (mkLocals true (Some m))).
  { rewrite run_app, run_frame_open. reflexivity. }
  rewrite (scan_app _ _ _ H). simpl scan_loop. unfold loop_body. simpl.
  now rewrite skipn_past.
Qed.

Lemma next_encoded_frame m tail arrivals :
  __next__ arrivals (encode_can29_message m ++ tail)
  = (Message m, tail, arrivals).
Proof. destruct arrivals; simpl; now rewrite scan_encoded_frame. Qed.

(** C1. Round trip of the frame codec: for every byte sequence [m] without
    the raw pairs DLE STX and DLE ETX, the decoder run on the encoded frame of
    [m] returns exactly [m] and consumes the whole frame, leaving an empty
    buffer.  ([next_encoded_frame] shows the same for every [m].) *)
Theorem C1_round_trip (m : bytearray) (arrivals : list bytearray) :
  contains_pair DLE STX m = false ->
  contains_pair DLE ETX m = false ->
  __next__ arrivals (encode_can29_message m) = (Message m, [], arrivals).
Proof.
  intros _ _. rewrite <- (app_nil_r (encode_can29_message m)).
  apply next_encoded_frame.
Qed.

Lemma C1_round_trip_witness :
  __next__ [] (encode_can29_message [0x19; 0x10; 0x0d; 0x02; 0x03; 0x41])
  = (Message [0x19; 0x10; 0x0d; 0x02; 0x03; 0x41], [], []).
Proof. apply C1_round_trip; reflexivity. Defined.

(** * The decoder: escapes, stray terminators, exhausted buffers *)

Lemma loop_body_keeps_frame buf i l c l' :
  loop_body buf i l c = Continue l' ->
  message_data l <> None -> message_data l' <> None.
Proof.
  unfold loop_body, append. intros H Hmd.
  destruct (message_data l) as [md|]; [clear Hmd | contradiction].
  destruct (ten_found l).
  - destruct (c =? 0x02); [injection H as <-; discriminate|].
    destruct (c =? 0x03); [discriminate|].
    destruct ((c =? 0x0d) || (c =? 0x10));
      [injection H as <-; discriminate | discriminate].
  - destruct (c =? 0x10); injection H as <-; discriminate.
Qed.

(** Once a frame is open, a pass never ends with no message in progress. *)
Lemma scan_loop_in_frame buf i l rest :
  message_data l <> None -> scan_loop buf i l rest <> Exhausted None.
Proof.
  revert i l; induction rest as [|c rest IH]; intros i l Hmd; simpl.
  - intros E. now injection E.
  - destruct (loop_body buf i l c) as [l'|r] eqn:E.
    + apply IH. eapply loop_body_keeps_frame; eassumption.
    + unfold loop_body in E.
      destruct (ten_found l).
      * destruct (c =? 0x02); [discriminate|].
        destruct (c =? 0x03).
        -- destruct (message_data l); [|contradiction].
           injection E as <-. discriminate.
        -- destruct ((c =? 0x0d) || (c =? 0x10)); [discriminate|].
           injection E as <-. discriminate.
      * destruct (c =? 0x10); discriminate.
Qed.

(** A buffer that starts with an open frame: whatever arrives later, the
    call never ends with [StopIteration]. *)
Lemma next_in_frame_never_stops arrivals pre l rest :
  run fresh pre = Some l -> message_data l <> None ->
  fst (fst (__next__ arrivals (pre ++ rest))) <> Raises StopIteration.
Proof.
  intros Hrun Hmd. revert rest.
  induction arrivals as [|data arrivals IH]; intros rest; simpl;
    pose proof (scan_loop_in_frame (pre ++ rest) (length pre) l rest Hmd) as Hs;
    rewrite <- (scan_app _ _ _ Hrun) in Hs;
    destruct (scan (pre ++ rest)) as [md b|c b|[md|]]; simpl;
    try discriminate; try congruence.
  unfold data_received. rewrite <- app_assoc. apply IH.
Qed.

(** With nothing arriving, a call on a buffer that ends inside a frame stays
    in [while True] for ever, the buffer unchanged. *)
Lemma next_spins buf l n :
  run fresh buf = Some l -> message_data l <> None ->
  __next__ (repeat [] n) buf = (Spinning, buf, []).
Proof.
  intros Hrun Hmd. induction n as [|n IH]; simpl;
    rewrite (scan_exhausted _ _ Hrun);
    destruct (message_data l); try contradiction; [reflexivity|].
  unfold data_received. now rewrite app_nil_r.
Qed.

(** A buffer cut inside an encoded frame, after the start marker, ends
    inside a frame. *)
Lemma run_prefix_total l pre rest l' :
  run l (pre ++ rest) = Some l' -> exists l1, run l pre = Some l1.
Proof.
  rewrite run_app. destruct (run l pre); [eauto | discriminate].
Qed.

Lemma run_keeps_frame pre l l' :
  run l pre = Some l' -> message_data l <> None -> message_data l' <> None.
Proof.
  revert l; induction pre as [|c pre IH]; intros l H Hmd; simpl in H.
  - now injection H as <-.
  - destruct (loop_body [] 0 l c) as [l1|] eqn:E; [|discriminate].
    apply (IH l1 H). eapply loop_body_keeps_frame; eassumption.
Qed.

Lemma truncated_frame_in_frame m k :
  (2 <= k < length (encode_can29_message m))%nat ->
  exists l, run fresh (firstn k (encode_can29_message m)) = Some l
            /\ message_data l <> None.
Proof.
  intros Hk. rewrite encode_can29_message_spec in *. unfold encode_spec in *.
  set (body := stuff m ++ [0x10]).
  assert (Hfull : run fresh ([0x10; 0x02] ++ body)
                  = Some (mkLocals true (Some m))).
  { unfold body. rewrite app_assoc, run_app, run_frame_open. reflexivity. }
  assert (Hcut : exists rest,
             [0x10; 0x02] ++ body = firstn k ([0x10; 0x02] ++ stuff m ++ [0x10; 0x03]) ++ rest).
  { exists (skipn k ([0x10; 0x02] ++ body)).
    replace ([0x10; 0x02] ++ stuff m ++ [0x10; 0x03])
      with (([0x10; 0x02] ++ body) ++ [0x03])
      by (unfold body; rewrite <- !app_assoc; reflexivity).
    rewrite firstn_app.
    replace (Nat.sub k (length ([0x10; 0x02] ++ body))) with 0%nat.
    - simpl firstn at 2. rewrite app_nil_r. symmetry. apply firstn_skipn.
    - revert Hk. unfold body. rewrite !length_app. simpl. lia. }
  destruct Hcut as [rest Hcut]. rewrite Hcut in Hfull.
  destruct (run_prefix_total _ _ _ _ Hfull) as [l1 Hl1].
  exists l1. split; [assumption|].
  destruct k as [|[|k]]; [lia | lia |].
  change (firstn (S (S k)) ([0x10; 0x02] ++ stuff m ++ [0x10; 0x03]))
    with ([0x10; 0x02] ++ firstn k (stuff m ++ [0x10; 0x03])) in Hl1.
  rewrite run_app in Hl1.
  change (run fresh [0x10; 0x02]) with (Some (mkLocals false (Some [])))
    in Hl1.
  cbv beta iota in Hl1.
  apply (run_keeps_frame _ _ _ Hl1). discriminate.
Qed.

(** Partial frame persistence: a complete frame followed by a frame cut
    after its start marker gives the first message and leaves the cut frame,
    on which the next call waits. *)
Lemma partial_frame_persistence (m1 m2 : bytearray) (k : nat) :
  (2 <= k < length (encode_can29_message m2))%nat ->
  __next__ [] (encode_can29_message m1 ++ firstn k (encode_can29_message m2))
  = (Message m1, firstn k (encode_can29_message m2), [])
  /\ forall n, __next__ (repeat [] n) (firstn k (encode_can29_message m2))
               = (Spinning, firstn k (encode_can29_message m2), []).
Proof.
  intros Hk. split; [apply next_encoded_frame|].
  destruct (truncated_frame_in_frame m2 k Hk) as [l [Hrun Hmd]].
  intros n. now apply next_spins with l.
Qed.

(** Two encoded frames in a row decode to the two messages, in order. *)
Lemma multi_frame_buffer (m1 m2 : bytearray) :
  __next__ [] (encode_can29_message m1 ++ encode_can29_message m2)
  = (Message m1, encode_can29_message m2, [])
  /\ __next__ [] (encode_can29_message m2) = (Message m2, [], []).
Proof.
  split; [apply next_encoded_frame|].
  rewrite <- (app_nil_r (encode_can29_message m2)). apply next_encoded_frame.
Qed.

(** C4. With no message in progress, the pair DLE ETX makes the decoder move
    the buffer past the delimiter and then raise the error for an unexpected
    byte after 0x10, naming 0x03: the scan is not continued. *)
Theorem C4_stray_terminator_raises :
  forall (rest : bytearray) (arrivals : list bytearray),
    __next__ arrivals (0x10 :: 0x03 :: rest)
    = (Raises (RuntimeError 0x03), rest, arrivals).
Proof. intros rest [|data arrivals]; reflexivity. Qed.

(** C6 as stated fails: the buffer [0x10, 0x02, 0x41] is exhausted by a pass
    without a complete frame, and no call on it ends with [StopIteration],
    whatever arrives afterwards. *)
Lemma C6_counterexample :
  run fresh [0x10; 0x02; 0x41] = Some (mkLocals false (Some [0x41]))
  /\ ~ (exists arrivals,
          fst (fst (__next__ arrivals [0x10; 0x02; 0x41]))
          = Raises StopIteration).
Proof.
  split; [reflexivity|]. intros [arrivals H].
  apply (next_in_frame_never_stops arrivals [0x10; 0x02; 0x41]
           (mkLocals false (Some [0x41])) []); [reflexivity | discriminate |].
  now rewrite app_nil_r.
Qed.

(** C6, amended. When a pass exhausts the buffer with no message in progress,
    the call ends with [StopIteration] and the buffer is left as it was.  When
    the pass exhausts the buffer inside a frame, the call does not signal: it
    leaves the buffer as it was and scans again, for ever if nothing arrives,
    and over the extended buffer once the reader has appended data. *)
Theorem C6_exhausted_buffer (buf : bytearray) (l : locals) :
  run fresh buf = Some l ->
  (message_data l = None ->
   forall arrivals,
     __next__ arrivals buf = (Raises StopIteration, buf, arrivals))
  /\ (message_data l <> None ->
      (forall n, __next__ (repeat [] n) buf = (Spinning, buf, []))
      /\ (forall data arrivals,
             __next__ (data :: arrivals) buf
             = __next__ arrivals (data_received buf data))).
Proof.
  intros Hrun. split.
  - intros Hmd [|data arrivals]; simpl;
      rewrite (scan_exhausted _ _ Hrun), Hmd; reflexivity.
  - intros Hmd. split.
    + intros n. now apply next_spins with l.
    + intros data arrivals. simpl. rewrite (scan_exhausted _ _ Hrun).
      destruct (message_data l); [reflexivity | contradiction].
Qed.

Lemma C6_exhausted_buffer_witness :
  (forall arrivals,
      __next__ arrivals [0x41; 0x10; 0x0d; 0x42; 0x10]
      = (Raises StopIteration, [0x41; 0x10; 0x0d; 0x42; 0x10], arrivals))
  /\ (forall n, __next__ (repeat [] n) [0x10; 0x02; 0x41; 0x10]
                = (Spinning, [0x10; 0x02; 0x41; 0x10], [])).
Proof.
  split.
  - apply (C6_exhausted_buffer [0x41; 0x10; 0x0d; 0x42; 0x10]
             (mkLocals true None)); reflexivity.
  - apply (C6_exhausted_buffer [0x10; 0x02; 0x41; 0x10]
             (mkLocals true (Some [0x41]))); [reflexivity | discriminate].
Defined.

(** C7 as stated fails: the encoded frame of [0x10, 0x41] holds a 0x10
    followed by 0x41 and decodes to a message; and in a buffer with a complete
    frame before a malformed escape the call returns that frame's message. *)
Lemma C7_counterexample :
  (contains_pair 0x10 0x41 [0x10; 0x02; 0x10; 0x10; 0x41; 0x10; 0x03] = true
   /\ escapable 0x41 = false
   /\ __next__ [] [0x10; 0x02; 0x10; 0x10; 0x41; 0x10; 0x03]
      = (Message [0x10; 0x41], [], []))
  /\ (contains_pair 0x10 0x05 [0x10; 0x02; 0x41; 0x10; 0x03; 0x10; 0x05] = true
      /\ escapable 0x05 = false
      /\ __next__ [] [0x10; 0x02; 0x41; 0x10; 0x03; 0x10; 0x05]
         = (Message [0x41], [0x10; 0x05], [])).
Proof. repeat split. Qed.

(** C7, amended. When the pass reaches, without having returned or raised, a
    0x10 that is itself not the byte after an escape marker, and the next byte
    is none of 0x02, 0x03, 0x0d, 0x10, the call raises the framing error
    naming that byte, returns no message and leaves the buffer unchanged. *)
Theorem C7_malformed_escape (pre post : bytearray) (c : Z) (l : locals)
                            (arrivals : list bytearray) :
  run fresh pre = Some l ->
  ten_found l = false ->
  escapable c = false ->
  __next__ arrivals (pre ++ 0x10 :: c :: post)
  = (Raises (RuntimeError c), pre ++ 0x10 :: c :: post, arrivals).
Proof.
  intros Hrun Htf Hc.
  assert (Hs : scan (pre ++ 0x10 :: c :: post)
               = Raised c (pre ++ 0x10 :: c :: post)).
  { rewrite (scan_app _ _ _ Hrun). simpl. unfold loop_body at 1.
    rewrite Htf. simpl. unfold loop_body. simpl.
    unfold escapable in Hc.
    destruct (c =? 0x02); [discriminate|].
    destruct (c =? 0x03); [discriminate|].
    destruct (c =? 0x0d); [discriminate|].
    destruct (c =? 0x10); [discriminate|]. reflexivity. }
  destruct arrivals; simpl; rewrite Hs; reflexivity.
Qed.

Lemma C7_malformed_escape_witness :
  __next__ [] ([0x07; 0x10; 0x02; 0x41] ++ 0x10 :: 0x05 :: [0x42])
  = (Raises (RuntimeError 0x05),
     [0x07; 0x10; 0x02; 0x41] ++ 0x10 :: 0x05 :: [0x42], []).
Proof.
  apply (C7_malformed_escape [0x07; 0x10; 0x02; 0x41] [0x42] 0x05
           (mkLocals false (Some [0x41])) []); reflexivity.
Defined.

(** * The backend port and the forwarder *)

(** C9. A message whose byte 2 is not its length minus 5 is rejected by
    [send_raw] before any call of the backend: the trace of the call is empty
    and it ends with an exception (the failed assertion when the message has
    a byte 2, the index error when it has none). *)
Theorem C9_length_validation (bytes : bytearray) :
  nth_error bytes 2 <> Some (Z.of_nat (length bytes) - 5) ->
  CANCommunication.send_raw bytes
  = ([], Raise (if (length bytes <? 3)%nat then IndexError
                else AssertionError)).
Proof.
  intros H. unfold CANCommunication.send_raw, getitem.
  destruct (nth_error bytes 2) as [b2|] eqn:E.
  - assert (Hlen : (2 < length bytes)%nat)
      by (apply nth_error_Some; rewrite E; discriminate).
    assert (Hb : (b2 =? Z.of_nat (length bytes) - 5) = false)
      by (apply Z.eqb_neq; congruence).
    simpl. rewrite Hb. simpl.
    destruct (Nat.ltb_spec (length bytes) 3); [lia | reflexivity].
  - apply nth_error_None in E. simpl.
    destruct (Nat.ltb_spec (length bytes) 3); [reflexivity | lia].
Qed.

Lemma C9_length_validation_witness :
  CANCommunication.send_raw [0x19; 0x11; 0x04; 0x15; 0xa0; 0x01; 0xfe]
  = ([], Raise AssertionError).
Proof.
  apply (C9_length_validation [0x19; 0x11; 0x04; 0x15; 0xa0; 0x01; 0xfe]).
  simpl. discriminate.
Defined.

Lemma encode_longer (m : bytearray) :
  length (encode_can29_message m) = (length (stuff m) + 4)%nat.
Proof.
  rewrite encode_can29_message_spec. unfold encode_spec.
  rewrite !length_app. simpl. lia.
Qed.

Lemma stuff_length (m : bytearray) : (length m <= length (stuff m))%nat.
Proof.
  induction m as [|c m IH]; simpl; [lia|].
  rewrite length_app. unfold stuff_byte.
  destruct ((c =? 0x10) || (c =? 0x0d)); simpl; lia.
Qed.

(** C2. The outbound path of the code: for every message the backend's
    callback delivers, the bytes written to the serial output are the bytes
    of the message as delivered, never its encoded frame (the encoder is not
    applied before the write), and the call then ends with an attribute
    error at [can_input_protocol.serial], before [flushOutput()]: the output
    is not flushed.  So for the message [0x41] the bytes [0x41] are written
    and not the frame [0x10, 0x02, 0x41, 0x10, 0x03]. *)
Theorem C2_outbound_path :
  (forall raw_message : bytearray,
      msg_cb_fun raw_message
      = ([PrintOutbound raw_message; SerialWrite raw_message],
         Raise AttributeError)
      /\ serial_writes (fst (msg_cb_fun raw_message)) = [raw_message]
      /\ serial_writes (fst (msg_cb_fun raw_message))
         <> [encode_can29_message raw_message]
      /\ ~ In FlushOutput (fst (msg_cb_fun raw_message)))
  /\ msg_cb_fun [0x41]
     = ([PrintOutbound [0x41]; SerialWrite [0x41]], Raise AttributeError)
  /\ encode_can29_message [0x41] = [0x10; 0x02; 0x41; 0x10; 0x03].
Proof.
  split; [|split; reflexivity].
  intros raw. split; [reflexivity|]. split; [reflexivity|]. split.
  - cbn. intros E. injection E as E.
    apply (f_equal (@length Z)) in E. rewrite encode_longer in E.
    pose proof (stuff_length raw). lia.
  - cbn. intros [H|[H|[]]]; discriminate.
Qed.

(** The emulation loop writes the replies of the specification, encoded, in
    device-list order. *)
Lemma fake_replies_spec a b len c3 c4 p c6 payload n i rest :
  (i + length rest = n)%nat ->
  fake_replies (a :: b :: len :: c3 :: c4 :: p :: c6 :: payload) n i rest
  = (flat_map (fun reply => [PrintFakeReply reply;
                             SerialWrite (encode_can29_message reply)])
              (enumeration_replies b a c4 p c6 n i rest),
     Ok tt).
Proof.
  revert i; induction rest as [|d rest IH]; intros i Hn; [reflexivity|].
  simpl in Hn. cbn [fake_replies enumeration_replies flat_map].
  unfold getitem, bind, ret, emit. cbn [nth_error].
  rewrite IH by lia. unfold enumeration_reply.
  replace (i =? n - 1)%nat with (i + 1 =? n)%nat; [reflexivity|].
  destruct (Nat.eqb_spec (i + 1) n), (Nat.eqb_spec i (n - 1));
    try reflexivity; lia.
Qed.

Lemma serial_writes_replies (replies : list bytearray) :
  serial_writes (flat_map (fun reply => [PrintFakeReply reply;
                                         SerialWrite (encode_can29_message reply)])
                          replies)
  = map encode_can29_message replies.
Proof. induction replies as [|r l IH]; simpl; [|rewrite IH]; reflexivity. Qed.

Lemma backend_sends_replies (replies : list bytearray) :
  backend_sends (flat_map (fun reply => [PrintFakeReply reply;
                                         SerialWrite (encode_can29_message reply)])
                          replies)
  = [].
Proof. induction replies as [|r l IH]; simpl; [|rewrite IH]; reflexivity. Qed.

Lemma enumeration_replies_length s d c p q n i rest :
  length (enumeration_replies s d c p q n i rest) = length rest.
Proof.
  revert i; induction rest as [|x rest IH]; intros i; simpl;
    [|rewrite IH]; reflexivity.
Qed.

(** C3. Enumeration emulation: on a simulated backend with device list
    [dev_ids] of length N, a message with cmd_class 0x15, cmd_number 0xa0 and
    sub_nr 0xfe makes the forwarder write exactly N frames in the order of
    the device list, and nothing is sent to the backend.  The i-th frame is
    0x10 0x02, then the bytes of the reply
    [source, destination, 0x04, 0x09 if i is last else 0x05, cmd_number,
     proc_id, sub_nr, device id, 3] with 0x10 in front of every 0x10 and
    0x0d, then 0x10 0x03.  For the device ids (3, 7) and the message
    [A,B,0x04,0x15,0xa0,P,0xfe] the replies are [B,A,0x04,0x05,0xa0,P,0xfe,3,3]
    and [B,A,0x04,0x09,0xa0,P,0xfe,7,3]; with A = 0x0d, B = 0x11 and P = 0x10
    the bytes on the wire are as listed. *)
Theorem C3_enumeration_emulation :
  (forall (dev_ids : list Z) (a b len p : Z) (payload : bytearray),
      let raw_message := a :: b :: len :: 0x15 :: 0xa0 :: p :: 0xfe :: payload in
      let replies :=
        enumeration_replies b a 0xa0 p 0xfe (length dev_ids) 0 dev_ids in
      exists t,
        process_message (CANCommunication.mk dev_ids true) raw_message
        = (t, Ok tt)
        /\ serial_writes t
           = map (fun reply =>
                    [0x10; 0x02]
                      ++ flat_map (fun c => if (c =? 0x10) || (c =? 0x0d)
                                            then [0x10; c] else [c]) reply
                      ++ [0x10; 0x03])
                 replies
        /\ length (serial_writes t) = length dev_ids
        /\ backend_sends t = [])
  /\ (forall A B P : Z,
         exists t,
           process_message (CANCommunication.mk [3; 7] true)
                           [A; B; 0x04; 0x15; 0xa0; P; 0xfe]
           = (t, Ok tt)
           /\ serial_writes t
              = [[0x10; 0x02]
                   ++ flat_map (fun c => if (c =? 0x10) || (c =? 0x0d)
                                         then [0x10; c] else [c])
                               [B; A; 0x04; 0x05; 0xa0; P; 0xfe; 3; 3]
                   ++ [0x10; 0x03];
                 [0x10; 0x02]
                   ++ flat_map (fun c => if (c =? 0x10) || (c =? 0x0d)
                                         then [0x10; c] else [c])
                               [B; A; 0x04; 0x09; 0xa0; P; 0xfe; 7; 3]
                   ++ [0x10; 0x03]]
           /\ backend_sends t = [])
  /\ process_message (CANCommunication.mk [3; 7] true)
                     [0x0d; 0x11; 0x04; 0x15; 0xa0; 0x10; 0xfe]
     = ([PrintInbound [0x0d; 0x11; 0x04; 0x15; 0xa0; 0x10; 0xfe];
         PrintFake; LogDebug;
         PrintFakeReply [0x11; 0x0d; 0x04; 0x05; 0xa0; 0x10; 0xfe; 3; 3];
         SerialWrite [0x10; 0x02; 0x11; 0x10; 0x0d; 0x04; 0x05; 0xa0;
                      0x10; 0x10; 0xfe; 3; 3; 0x10; 0x03];
         PrintFakeReply [0x11; 0x0d; 0x04; 0x09; 0xa0; 0x10; 0xfe; 7; 3];
         SerialWrite [0x10; 0x02; 0x11; 0x10; 0x0d; 0x04; 0x09; 0xa0;
                      0x10; 0x10; 0xfe; 7; 3; 0x10; 0x03]],
        Ok tt).
Proof.
  assert (G : forall (dev_ids : list Z) (a b len p : Z) (payload : bytearray),
             process_message (CANCommunication.mk dev_ids true)
               (a :: b :: len :: 0x15 :: 0xa0 :: p :: 0xfe :: payload)
             = ([PrintInbound
                   (a :: b :: len :: 0x15 :: 0xa0 :: p :: 0xfe :: payload);
                 PrintFake; LogDebug]
                  ++ flat_map
                       (fun reply => [PrintFakeReply reply;
                                      SerialWrite (encode_can29_message reply)])
                       (enumeration_replies b a 0xa0 p 0xfe
                          (length dev_ids) 0 dev_ids),
                Ok tt)).
  { intros. unfold process_message, enumeration_trigger, and_, getitem,
      bind, ret, emit. cbn [nth_error CANCommunication.Simulated
                            CANCommunication.device_ids Z.eqb Pos.eqb app].
    rewrite fake_replies_spec by reflexivity. reflexivity. }
  assert (W : forall replies : list bytearray,
             serial_writes
               ([PrintInbound []; PrintFake; LogDebug]
                  ++ flat_map
                       (fun reply => [PrintFakeReply reply;
                                      SerialWrite (encode_can29_message reply)])
                       replies)
             = map (fun reply =>
                      [0x10; 0x02]
                        ++ flat_map (fun c => if (c =? 0x10) || (c =? 0x0d)
                                              then [0x10; c] else [c]) reply
                        ++ [0x10; 0x03])
                   replies).
  { intros replies.
    cbn [app serial_writes flat_map].
    fold (serial_writes
            (flat_map (fun reply => [PrintFakeReply reply;
                                     SerialWrite (encode_can29_message reply)])
                      replies)).
    rewrite serial_writes_replies. apply map_ext. intros reply.
    rewrite encode_can29_message_spec. reflexivity. }
  assert (B : forall (m : bytearray) (replies : list bytearray),
             backend_sends
               ([PrintInbound m; PrintFake; LogDebug]
                  ++ flat_map
                       (fun reply => [PrintFakeReply reply;
                                      SerialWrite (encode_can29_message reply)])
                       replies)
             = []).
  { intros m replies.
    cbn [app backend_sends filter is_backend_send].
    fold (backend_sends
            (flat_map (fun reply => [PrintFakeReply reply;
                                     SerialWrite (encode_can29_message reply)])
                      replies)).
    apply backend_sends_replies. }
  assert (W' : forall (m : bytearray) (replies : list bytearray),
             serial_writes
               ([PrintInbound m; PrintFake; LogDebug]
                  ++ flat_map
                       (fun reply => [PrintFakeReply reply;
                                      SerialWrite (encode_can29_message reply)])
                       replies)
             = map (fun reply =>
                      [0x10; 0x02]
                        ++ flat_map (fun c => if (c =? 0x10) || (c =? 0x0d)
                                              then [0x10; c] else [c]) reply
                        ++ [0x10; 0x03])
                   replies).
  { intros m replies. rewrite <- (W replies). reflexivity. }
  split; [|split].
  - intros. eexists. split; [apply G|].
    rewrite W', B, length_map. unfold replies.
    rewrite enumeration_replies_length. auto.
  - intros. eexists. split; [apply G|].
    rewrite W', B. split; reflexivity.
  - reflexivity.
Qed.

(** A decoded message that does not trigger the emulation and whose byte 2
    is not its length minus 5 stops the forwarder: the assertion of
    [send_raw] fails and nothing catches it. *)
Lemma process_message_mismatch zeiss_can_port m b2 :
  enumeration_trigger zeiss_can_port m = ([], Ok false) ->
  nth_error m 2 = Some b2 ->
  b2 <> Z.of_nat (length m) - 5 ->
  process_message zeiss_can_port m = ([PrintInbound m], Raise AssertionError).
Proof.
  intros Htrig Hb2 Hne. unfold process_message.
  unfold bind at 1. cbn [emit]. unfold bind at 1. rewrite Htrig.
  unfold CANCommunication.send_raw, getitem. rewrite Hb2.
  apply Z.eqb_neq in Hne. unfold bind, ret, assert_. rewrite Hne.
  reflexivity.
Qed.

Lemma forwarder_crashes_on_mismatch zeiss_can_port m b2 rest fuel arrivals :
  enumeration_trigger zeiss_can_port m = ([], Ok false) ->
  nth_error m 2 = Some b2 ->
  b2 <> Z.of_nat (length m) - 5 ->
  start_can_forwarder (S fuel) zeiss_can_port arrivals
                      (encode_can29_message m ++ rest)
  = mkRun [PrintInbound m] (Crashed AssertionError) rest.
Proof.
  intros Htrig Hb2 Hne. cbn [start_can_forwarder].
  rewrite next_encoded_frame.
  now rewrite (process_message_mismatch _ _ _ Htrig Hb2 Hne).
Qed.

(** C5 as stated fails: after a frame whose length byte is wrong, the valid
    frame behind it is never forwarded, however long the forwarder is
    followed and whatever arrives. *)
Lemma C5_counterexample :
  ~ (exists fuel arrivals,
        backend_sends
          (log (start_can_forwarder fuel (CANCommunication.mk [] false)
                  arrivals
                  (encode_can29_message [1; 2; 9; 4; 5; 6; 7]
                   ++ encode_can29_message [1; 2; 3; 4; 5; 6; 7; 8])))
        <> []).
Proof.
  intros [[|fuel] [arrivals H]]; [now apply H|].
  rewrite (forwarder_crashes_on_mismatch _ [1; 2; 9; 4; 5; 6; 7] 9) in H;
    [now apply H | reflexivity | reflexivity | discriminate].
Qed.

(** C5, amended. For every decoded message that reaches [send_raw] and whose
    byte 2 disagrees with its size minus 5, the send is rejected by the failed
    assertion, nothing is forwarded to the backend, and the error leaves the
    forwarding loop: the frames behind it stay in the buffer, unprocessed. *)
Theorem C5_length_mismatch_policy
        (zeiss_can_port : CANCommunication.t) (m rest : bytearray) (b2 : Z)
        (fuel : nat) (arrivals : list bytearray) :
  enumeration_trigger zeiss_can_port m = ([], Ok false) ->
  nth_error m 2 = Some b2 ->
  b2 <> Z.of_nat (length m) - 5 ->
  let r := start_can_forwarder (S fuel) zeiss_can_port arrivals
                               (encode_can29_message m ++ rest) in
  state r = Crashed AssertionError
  /\ backend_sends (log r) = []
  /\ log r = [PrintInbound m]
  /\ input_buffer r = rest.
Proof.
  intros Htrig Hb2 Hne r. unfold r.
  rewrite (forwarder_crashes_on_mismatch _ _ _ _ _ _ Htrig Hb2 Hne).
  repeat split.
Qed.

Lemma C5_length_mismatch_policy_witness :
  let r := start_can_forwarder 3 (CANCommunication.mk [3; 7] true) []
             (encode_can29_message [1; 2; 9; 4; 5; 6; 7]
              ++ encode_can29_message [1; 2; 3; 4; 5; 6; 7; 8]) in
  state r = Crashed AssertionError
  /\ backend_sends (log r) = []
  /\ log r = [PrintInbound [1; 2; 9; 4; 5; 6; 7]]
  /\ input_buffer r = encode_can29_message [1; 2; 3; 4; 5; 6; 7; 8].
Proof.
  apply (C5_length_mismatch_policy (CANCommunication.mk [3; 7] true)
           [1; 2; 9; 4; 5; 6; 7]
           (encode_can29_message [1; 2; 3; 4; 5; 6; 7; 8]) 9 2 []);
    [reflexivity | reflexivity | discriminate].
Defined.

(** C10 as stated fails: the four-byte message [1, 2, 3, 4] is shorter than
    7 bytes and processing it raises the assertion error of the length check,
    not an index error. *)
Lemma C10_counterexample :
  process_message (CANCommunication.mk [] false) [1; 2; 3; 4]
  = ([PrintInbound [1; 2; 3; 4]], Raise AssertionError).
Proof. reflexivity. Qed.

Ltac split_eqb :=
  repeat match goal with
         | |- context [Z.eqb ?a ?b] =>
             lazymatch a with
             | Z.pos _ => fail
             | Z0 => fail
             | Z.neg _ => fail
             | _ => destruct (Z.eqb_spec a b)
             end
         end.

(** C10, amended. The forwarding path has no length guard: processing a
    decoded message shorter than 7 bytes (the empty frame included) always
    ends with an exception, with nothing written to the serial port and
    nothing sent to the backend.  The exception is the index error when the
    message has fewer than 3 bytes or when its byte 2 equals its length minus
    5; on a backend that is not simulated it is the assertion error of the
    length check whenever byte 2 exists and differs from the length minus 5. *)
Theorem C10_short_message (zeiss_can_port : CANCommunication.t)
                          (m : bytearray) :
  (length m < 7)%nat ->
  exists t e,
    process_message zeiss_can_port m = (t, Raise e)
    /\ serial_writes t = [] /\ backend_sends t = []
    /\ (e = IndexError \/ e = AssertionError)
    /\ ((length m < 3)%nat -> e = IndexError)
    /\ (nth_error m 2 = Some (Z.of_nat (length m) - 5) -> e = IndexError)
    /\ (CANCommunication.Simulated zeiss_can_port = false ->
        forall b2, nth_error m 2 = Some b2 ->
                   b2 <> Z.of_nat (length m) - 5 -> e = AssertionError).
Proof.
  intros Hlen. destruct zeiss_can_port as [devs sim].
  destruct m as [|c0 [|c1 [|c2 [|c3 [|c4 [|c5 [|c6 m]]]]]]];
    [.. | simpl in Hlen; lia];
    destruct sim;
    unfold process_message, enumeration_trigger, CANCommunication.send_raw,
      CANCommunication.send_message, and_, getitem, bind, ret, emit, raise,
      assert_;
    cbn [nth_error CANCommunication.Simulated length Z.of_nat
         Pos.of_succ_nat Pos.succ Z.sub Z.add Z.opp Z.pos_sub Z.succ_double
         Z.pred_double Z.double Pos.pred_double app];
    split_eqb; subst;
    do 2 eexists; (split; [reflexivity|]);
    cbn [serial_writes backend_sends flat_map filter is_backend_send app];
    repeat split; auto;
    try (intros; simpl in *; lia);
    try (intros; congruence);
    try (intros ? ? H1 H2; simpl in *; congruence).
Qed.

Lemma C10_short_message_witness :
  exists t e,
    process_message (CANCommunication.mk [3; 7] true) [] = (t, Raise e)
    /\ serial_writes t = [] /\ backend_sends t = []
    /\ (e = IndexError \/ e = AssertionError)
    /\ ((length (@nil Z) < 3)%nat -> e = IndexError)
    /\ (nth_error (@nil Z) 2 = Some (Z.of_nat (length (@nil Z)) - 5)
        -> e = IndexError)
    /\ (CANCommunication.Simulated (CANCommunication.mk [3; 7] true) = false ->
        forall b2, nth_error (@nil Z) 2 = Some b2 ->
                   b2 <> Z.of_nat (length (@nil Z)) - 5 -> e = AssertionError).
Proof.
  apply (C10_short_message (CANCommunication.mk [3; 7] true) []). simpl. lia.
Defined.

(** * Further properties of the encoder *)

(** Two messages with the same frame are the same message. *)
Theorem encode_can29_message_injective (m1 m2 : bytearray) :
  encode_can29_message m1 = encode_can29_message m2 -> m1 = m2.
Proof.
  intros E.
  pose proof (scan_encoded_frame m1 []) as H1.
  pose proof (scan_encoded_frame m2 []) as H2.
  rewrite E in H1. rewrite H1 in H2. now injection H2.
Qed.

Lemma encode_can29_message_injective_witness :
  [0x10; 0x0d] = [0x10; 0x0d].
Proof.
  apply (encode_can29_message_injective [0x10; 0x0d] [0x10; 0x0d]).
  reflexivity.
Defined.

Lemma stuff_length_exact (m : bytearray) :
  length (stuff m)
  = (length m + length (filter (fun c => ((c =? 0x10) || (c =? 0x0d))%Z) m))%nat.
Proof.
  induction m as [|c m IH]; simpl; [reflexivity|].
  rewrite length_app, IH. unfold stuff_byte.
  destruct ((c =? 0x10) || (c =? 0x0d)); simpl; lia.
Qed.

(** A frame is the message, the four marker bytes and one escape byte for
    every 0x10 or 0x0d of the message: between [len + 4] and [2 len + 4]
    bytes. *)
Theorem encode_can29_message_length (m : bytearray) :
  length (encode_can29_message m)
  = (length m + 4
     + length (filter (fun c => ((c =? 0x10) || (c =? 0x0d))%Z) m))%nat
  /\ (length m + 4 <= length (encode_can29_message m) <= 2 * length m + 4)%nat.
Proof.
  rewrite encode_longer, stuff_length_exact.
  pose proof (filter_length_le (fun c => ((c =? 0x10) || (c =? 0x0d))%Z) m).
  lia.
Qed.

(** Frames of consecutive messages: the frame of a message put together from
    two parts is the stuffed parts between one pair of markers. *)
Lemma encode_can29_message_app (m1 m2 : bytearray) :
  encode_can29_message (m1 ++ m2)
  = [0x10; 0x02] ++ stuff m1 ++ stuff m2 ++ [0x10; 0x03].
Proof.
  rewrite encode_can29_message_spec. unfold encode_spec.
  now rewrite stuff_app, <- app_assoc.
Qed.

(** * Further properties of the decoder *)

Lemma run_frame_after pre l m :
  run fresh pre = Some l -> ten_found l = false ->
  run fresh ((pre ++ [0x10; 0x02] ++ stuff m) ++ [0x10])
  = Some (mkLocals true (Some m)).
Proof.
  intros Hrun Htf. rewrite !run_app, Hrun.
  assert (E : run l [0x10; 0x02] = Some (mkLocals false (Some []))).
  { simpl. unfold loop_body at 1. rewrite Htf. reflexivity. }
  rewrite run_app, E, run_stuff. reflexivity.
Qed.

(** Whatever the pass has walked over before a start marker is dropped: noise
    and an earlier frame left open alike.  The frame that follows is decoded
    and the buffer is cut right behind it. *)
Theorem next_restarts_at_start_marker
        (pre m tail : bytearray) (l : locals) (arrivals : list bytearray) :
  run fresh pre = Some l ->
  ten_found l = false ->
  __next__ arrivals (pre ++ encode_can29_message m ++ tail)
  = (Message m, tail, arrivals).
Proof.
  intros Hrun Htf.
  assert (Hs : scan (pre ++ encode_can29_message m ++ tail) = Returned m tail).
  { rewrite encode_can29_message_spec. unfold encode_spec.
    replace (pre ++ ([0x10; 0x02] ++ stuff m ++ [0x10; 0x03]) ++ tail)
      with (((pre ++ [0x10; 0x02] ++ stuff m) ++ [0x10]) ++ 0x03 :: tail)
      by (rewrite <- !app_assoc; reflexivity).
    rewrite (scan_app _ _ _ (run_frame_after pre l m Hrun Htf)).
    simpl scan_loop. unfold loop_body. simpl. now rewrite skipn_past. }
  destruct arrivals; simpl; rewrite Hs; reflexivity.
Qed.

Lemma next_restarts_at_start_marker_witness :
  __next__ [] ([0x07; 0x10; 0x02; 0x41; 0x42]
               ++ encode_can29_message [0x19; 0x10] ++ [0x55])
  = (Message [0x19; 0x10], [0x55], []).
Proof.
  apply (next_restarts_at_start_marker [0x07; 0x10; 0x02; 0x41; 0x42]
           [0x19; 0x10] [0x55] (mkLocals false (Some [0x41; 0x42])) []);
    reflexivity.
Defined.

(** What a pass has consumed when it leaves the loop. *)
Lemma scan_loop_consumes whole q i l r :
  whole = (q ++ (if ten_found l then [0x10] else [])) ++ r ->
  length (q ++ (if ten_found l then [0x10] else [])) = i ->
  (forall md, message_data l = Some md ->
              incl md q /\ (length md + 2 <= length q)%nat) ->
  match scan_loop whole i l r with
  | Returned md rest =>
      exists pre, whole = pre ++ 0x10 :: 0x03 :: rest
                  /\ incl md pre /\ (length md + 2 <= length pre)%nat
  | Raised c rest =>
      (c <> 0x03 /\ rest = whole)
      \/ (c = 0x03 /\ exists pre, whole = pre ++ 0x10 :: 0x03 :: rest)
  | Exhausted _ => True
  end.
Proof.
  revert q i l. induction r as [|c r IH]; intros q i l Hw Hi Hmd; [exact I|].
  destruct l as [tf md]. cbn [scan_loop]. unfold loop_body.
  cbn [ten_found message_data] in *.
  assert (Happ : forall x, md = Some x ->
             incl (x ++ [c]) (q ++ (if tf then [0x10] else []) ++ [c])
             /\ (length (x ++ [c]) + 2
                 <= length (q ++ (if tf then [0x10%Z] else []) ++ [c]))%nat).
  { intros x Hx. destruct (Hmd x Hx) as [Hin Hlen]. split.
    - apply incl_app; [apply incl_appl; exact Hin|].
      apply incl_appr, incl_appr, incl_refl.
    - rewrite !length_app. simpl. lia. }
  destruct tf.
  - destruct (Z.eqb_spec c 0x02) as [->|N2].
    + apply (IH (q ++ [0x10; 0x02])); cbn [ten_found message_data].
      * rewrite Hw, app_nil_r, <- !app_assoc. reflexivity.
      * rewrite app_nil_r. rewrite <- Hi, !length_app. simpl. lia.
      * intros x Hx. injection Hx as <-. split; [apply incl_nil_l|].
        rewrite length_app. simpl. lia.
    + destruct (Z.eqb_spec c 0x03) as [->|N3].
      * assert (Hskip : skipn (i + 1) whole = r).
        { rewrite Hw, <- Hi. apply skipn_past. }
        rewrite Hskip.
        assert (Hwhole : whole = q ++ 0x10 :: 0x03 :: r)
          by (rewrite Hw, <- app_assoc; reflexivity).
        destruct md as [x|]; simpl.
        -- exists q. destruct (Hmd x eq_refl). auto.
        -- right. split; [reflexivity|]. now exists q.
      * destruct ((c =? 0x0d) || (c =? 0x10)).
        -- apply (IH (q ++ [0x10; c])); cbn [ten_found message_data].
           ++ rewrite Hw, app_nil_r, <- !app_assoc. reflexivity.
           ++ rewrite app_nil_r. rewrite <- Hi, !length_app. simpl. lia.
           ++ intros y Hy. destruct md as [x|]; [|discriminate].
              injection Hy as <-. apply (Happ x eq_refl).
        -- left. split; [assumption | reflexivity].
  - rewrite app_nil_r in Hw, Hi. destruct (Z.eqb_spec c 0x10) as [->|N10].
    + apply (IH q); cbn [ten_found message_data].
      * rewrite Hw, <- app_assoc. reflexivity.
      * rewrite <- Hi, length_app. simpl. lia.
      * exact Hmd.
    + apply (IH (q ++ [c])); cbn [ten_found message_data].
      * rewrite Hw, app_nil_r, <- app_assoc. reflexivity.
      * rewrite app_nil_r. rewrite <- Hi, length_app. simpl. lia.
      * intros y Hy. destruct md as [x|]; [|discriminate].
        injection Hy as <-. apply (Happ x eq_refl).
Qed.

Lemma scan_consumes buf :
  match scan buf with
  | Returned md rest =>
      exists pre, buf = pre ++ 0x10 :: 0x03 :: rest
                  /\ incl md pre /\ (length md + 2 <= length pre)%nat
  | Raised c rest =>
      (c <> 0x03 /\ rest = buf)
      \/ (c = 0x03 /\ exists pre, buf = pre ++ 0x10 :: 0x03 :: rest)
  | Exhausted _ => True
  end.
Proof.
  apply (scan_loop_consumes buf [] 0%nat fresh buf);
    [reflexivity | reflexivity | discriminate].
Qed.

(** The buffer only ever loses bytes up to and including a terminator pair
    0x10 0x03.  A call that returns a message leaves exactly what follows the
    terminator; the message is made of bytes that stood before it, at least
    two fewer than there were.  A call that raises [StopIteration], raises for
    a byte other than 0x03, or is still waiting leaves the buffer whole.
    Data that arrived during the call is part of the buffer. *)
Theorem next_consumes_up_to_terminator
        (arrivals : list bytearray) (buf : bytearray) (out : outcome)
        (rest : bytearray) (arrivals' : list bytearray) :
  __next__ arrivals buf = (out, rest, arrivals') ->
  exists used,
    arrivals = used ++ arrivals'
    /\ match out with
       | Message md =>
           exists pre, buf ++ concat used = pre ++ 0x10 :: 0x03 :: rest
                       /\ incl md pre /\ (length md + 2 <= length pre)%nat
       | Raises (RuntimeError c) =>
           (c <> 0x03 /\ rest = buf ++ concat used)
           \/ (c = 0x03
               /\ exists pre, buf ++ concat used = pre ++ 0x10 :: 0x03 :: rest)
       | Raises _ => rest = buf ++ concat used
       | Spinning => rest = buf ++ concat used /\ arrivals' = []
       end.
Proof.
  revert buf. induction arrivals as [|data arrivals IH]; intros buf H;
    cbn [__next__] in H; pose proof (scan_consumes buf) as Hs;
    destruct (scan buf) as [md b|c b|[md|]].
  1-4: injection H as <- <- <-; exists []; cbn [concat app];
       rewrite ?app_nil_r; split; [reflexivity | auto].
  1-2: injection H as <- <- <-; exists []; cbn [concat app];
       rewrite ?app_nil_r; split; [reflexivity | auto].
  - destruct (IH _ H) as [used [Hu Hout]]. exists (data :: used).
    split; [now rewrite Hu|].
    unfold data_received in Hout. cbn [concat].
    rewrite app_assoc. exact Hout.
  - injection H as <- <- <-. exists []. cbn [concat app].
    rewrite ?app_nil_r. split; reflexivity.
Qed.

Lemma next_consumes_up_to_terminator_witness :
  exists used,
    [[0x41; 0x10]; [0x03; 0x55]] = used ++ []
    /\ exists pre,
         [0x07; 0x10; 0x02] ++ concat used = pre ++ 0x10 :: 0x03 :: [0x55]
         /\ incl [0x41] pre /\ (length [0x41] + 2 <= length pre)%nat.
Proof.
  apply (next_consumes_up_to_terminator [[0x41; 0x10]; [0x03; 0x55]]
           [0x07; 0x10; 0x02] (Message [0x41]) [0x55] []).
  reflexivity.
Defined.

(** A frame that arrives in two pieces.  With fewer than two bytes of it in
    the buffer the call ends with [StopIteration] and keeps them; with more,
    the call waits and returns the message as soon as the rest has been
    appended.  Either way the message comes out whole once the rest is in. *)
Theorem next_fragmented_frame (m : bytearray) (k : nat)
                              (arrivals : list bytearray) :
  (k < length (encode_can29_message m))%nat ->
  ((k < 2)%nat ->
   __next__ arrivals (firstn k (encode_can29_message m))
   = (Raises StopIteration, firstn k (encode_can29_message m), arrivals))
  /\ ((2 <= k)%nat ->
      __next__ (skipn k (encode_can29_message m) :: arrivals)
               (firstn k (encode_can29_message m))
      = (Message m, [], arrivals))
  /\ __next__ arrivals (data_received (firstn k (encode_can29_message m))
                                      (skipn k (encode_can29_message m)))
     = (Message m, [], arrivals).
Proof.
  intros Hk.
  assert (Hwhole : __next__ arrivals
                     (firstn k (encode_can29_message m)
                      ++ skipn k (encode_can29_message m))
                   = (Message m, [], arrivals)).
  { rewrite firstn_skipn. rewrite <- (app_nil_r (encode_can29_message m)).
    apply next_encoded_frame. }
  split; [|split].
  - intros H2. rewrite encode_can29_message_spec. unfold encode_spec.
    destruct k as [|[|k]]; [| |lia]; destruct arrivals; reflexivity.
  - intros H2.
    destruct (truncated_frame_in_frame m k (conj H2 Hk)) as [l [Hrun Hmd]].
    cbn [__next__]. rewrite (scan_exhausted _ _ Hrun).
    destruct (message_data l); [exact Hwhole | contradiction].
  - exact Hwhole.
Qed.

Lemma next_fragmented_frame_witness :
  ((3 < 2)%nat ->
   __next__ [] (firstn 3 (encode_can29_message [0x41; 0x10]))
   = (Raises StopIteration, firstn 3 (encode_can29_message [0x41; 0x10]), []))
  /\ ((2 <= 3)%nat ->
      __next__ (skipn 3 (encode_can29_message [0x41; 0x10]) :: [])
               (firstn 3 (encode_can29_message [0x41; 0x10]))
      = (Message [0x41; 0x10], [], []))
  /\ __next__ [] (data_received
                    (firstn 3 (encode_can29_message [0x41; 0x10]))
                    (skipn 3 (encode_can29_message [0x41; 0x10])))
     = (Message [0x41; 0x10], [], []).
Proof.
  apply (next_fragmented_frame [0x41; 0x10] 3 []). simpl. lia.
Defined.

(** * Further properties of the backend port *)

Lemma NoDup_map_of_nat (l : list nat) :
  NoDup l -> NoDup (map Z.of_nat l).
Proof.
  induction 1 as [|x l Hx _ IH]; simpl; constructor; [|exact IH].
  rewrite in_map_iff. intros [y [Hy Hin]].
  apply Nat2Z.inj in Hy. now subst y.
Qed.

(** The device ids found at construction are exactly the ids 0..254 for which
    the backend has a component, each listed once. *)
Theorem find_device_ids_spec (found : Z -> bool) :
  (forall d, In d (CANCommunication.find_device_ids found)
             <-> 0 <= d < 255 /\ found d = true)
  /\ NoDup (CANCommunication.find_device_ids found).
Proof.
  unfold CANCommunication.find_device_ids. split.
  - intros d. rewrite filter_In, in_map_iff. split.
    + intros [[n [Hn Hin]] Hf]. apply in_seq in Hin. subst d. split; [lia|].
      exact Hf.
    + intros [Hd Hf]. split; [|exact Hf].
      exists (Z.to_nat d). split; [lia|]. apply in_seq. lia.
  - apply NoDup_filter. apply NoDup_map_of_nat, seq_NoDup.
Qed.

Ltac run_send_raw :=
  unfold CANCommunication.send_raw, CANCommunication.send_message, getitem,
    bind, ret, emit, raise, assert_;
  cbn [nth_error nth fst snd skipn app].

Lemma send_raw_outcome (bytes : bytearray) :
  (snd (CANCommunication.send_raw bytes) = Ok tt
   <-> (7 <= length bytes)%nat
       /\ nth_error bytes 2 = Some (Z.of_nat (length bytes) - 5))
  /\ (snd (CANCommunication.send_raw bytes) = Ok tt ->
      fst (CANCommunication.send_raw bytes)
      = [SendMessage (nth 0 bytes 0) (nth 1 bytes 0) (nth 3 bytes 0)
                     (nth 4 bytes 0) (nth 6 bytes 0) (nth 5 bytes 0)
                     (skipn 7 bytes)])
  /\ (snd (CANCommunication.send_raw bytes) <> Ok tt ->
      fst (CANCommunication.send_raw bytes) = []).
Proof.
  destruct bytes as [|c0 [|c1 [|c2 [|c3 [|c4 [|c5 [|c6 rest]]]]]]];
    run_send_raw.
  1-3: (split; [split; [discriminate | cbn [length]; intros [H _]; lia]
               | split; [discriminate | reflexivity]]).
  1-4: (match goal with
        | |- context [Z.eqb ?a ?b] => destruct (Z.eqb a b)
        end; cbn [fst snd];
        (split; [split; [discriminate | cbn [length]; intros [H _]; lia]
                | split; [discriminate | reflexivity]])).
  set (n := Z.of_nat (length (c0 :: c1 :: c2 :: c3 :: c4 :: c5 :: c6 :: rest))).
  assert (Hlt : (6 <? length (c0 :: c1 :: c2 :: c3 :: c4 :: c5 :: c6 :: rest))%nat
                = true) by reflexivity.
  rewrite Hlt. destruct (Z.eqb_spec c2 (n - 5)) as [E|N]; cbn [fst snd app].
  - split; [split|split].
    + intros _. split; [cbn [length]; lia | now rewrite E].
    + reflexivity.
    + intros _. destruct rest; reflexivity.
    + intros H. now contradiction H.
  - split; [split|split].
    + discriminate.
    + intros [_ H]. injection H as H. contradiction.
    + discriminate.
    + reflexivity.
Qed.

(** [send_raw] reaches the backend exactly for the messages of at least 7
    bytes whose byte 2 is the length minus 5.  It then makes one call, with
    bytes 0, 1, 3, 4 as addresses and command, byte 6 as sub number, byte 5
    as process id, and everything from byte 7 on as extra data.  In every
    other case it raises without having called the backend. *)
Theorem send_raw_reaches_backend_iff (bytes : bytearray) :
  (snd (CANCommunication.send_raw bytes) = Ok tt
   <-> (7 <= length bytes)%nat
       /\ nth_error bytes 2 = Some (Z.of_nat (length bytes) - 5))
  /\ (snd (CANCommunication.send_raw bytes) = Ok tt ->
      fst (CANCommunication.send_raw bytes)
      = [SendMessage (nth 0 bytes 0) (nth 1 bytes 0) (nth 3 bytes 0)
                     (nth 4 bytes 0) (nth 6 bytes 0) (nth 5 bytes 0)
                     (skipn 7 bytes)])
  /\ (snd (CANCommunication.send_raw bytes) <> Ok tt ->
      fst (CANCommunication.send_raw bytes) = []).
Proof. exact (send_raw_outcome bytes). Qed.

Lemma send_raw_reaches_backend_ok (bytes : bytearray) :
  (7 <= length bytes)%nat ->
  nth_error bytes 2 = Some (Z.of_nat (length bytes) - 5) ->
  fst (CANCommunication.send_raw bytes)
  = [SendMessage (nth 0 bytes 0) (nth 1 bytes 0) (nth 3 bytes 0)
                 (nth 4 bytes 0) (nth 6 bytes 0) (nth 5 bytes 0)
                 (skipn 7 bytes)]
  /\ snd (CANCommunication.send_raw bytes) = Ok tt.
Proof.
  intros Hlen H2. destruct (send_raw_outcome bytes) as [Hiff [Hok _]].
  assert (H : snd (CANCommunication.send_raw bytes) = Ok tt)
    by (apply Hiff; auto).
  auto.
Qed.

(** * Further properties of the forwarder: one message *)

Ltac run_trigger :=
  unfold enumeration_trigger, and_, getitem, bind, ret, raise;
  cbn [CANCommunication.Simulated].

Lemma enumeration_trigger_outcome zeiss_can_port m :
  enumeration_trigger zeiss_can_port m = ([], Raise IndexError)
  \/ exists fake, enumeration_trigger zeiss_can_port m = ([], Ok fake).
Proof.
  destruct zeiss_can_port as [devs sim]. run_trigger.
  destruct sim; [|right; eexists; reflexivity].
  destruct (nth_error m 3) as [c3|]; [|left; reflexivity].
  destruct (c3 =? 0x15); [|right; eexists; reflexivity].
  destruct (nth_error m 4) as [c4|]; [|left; reflexivity].
  destruct (c4 =? 0xa0); [|right; eexists; reflexivity].
  destruct (nth_error m 6) as [c6|]; [|left; reflexivity].
  right; eexists; reflexivity.
Qed.

Lemma enumeration_trigger_fires zeiss_can_port m :
  enumeration_trigger zeiss_can_port m = ([], Ok true)
  <-> CANCommunication.Simulated zeiss_can_port = true
      /\ nth_error m 3 = Some 0x15
      /\ nth_error m 4 = Some 0xa0
      /\ nth_error m 6 = Some 0xfe.
Proof.
  destruct zeiss_can_port as [devs sim]. run_trigger.
  destruct sim; [|split; [discriminate | intros [H _]; discriminate]].
  destruct (nth_error m 3) as [c3|];
    [|split; [discriminate | intros [_ [H _]]; discriminate]].
  destruct (Z.eqb_spec c3 0x15) as [->|N3];
    [|split; [discriminate | intros [_ [H _]]; congruence]].
  destruct (nth_error m 4) as [c4|];
    [|split; [discriminate | intros [_ [_ [H _]]]; discriminate]].
  destruct (Z.eqb_spec c4 0xa0) as [->|N4];
    [|split; [discriminate | intros [_ [_ [H _]]]; congruence]].
  destruct (nth_error m 6) as [c6|];
    [|split; [discriminate | intros [_ [_ [_ H]]]; discriminate]].
  cbn [app]. destruct (Z.eqb_spec c6 0xfe) as [->|N6].
  - split; auto.
  - split; [discriminate | intros [_ [_ [_ H]]]; congruence].
Qed.

Lemma enumeration_trigger_iff_shape zeiss_can_port m :
  enumeration_trigger zeiss_can_port m = ([], Ok true)
  <-> CANCommunication.Simulated zeiss_can_port = true
      /\ exists a b len p payload,
           m = a :: b :: len :: 0x15 :: 0xa0 :: p :: 0xfe :: payload.
Proof.
  rewrite enumeration_trigger_fires. split.
  - intros [Hs [H3 [H4 H6]]]. split; [exact Hs|].
    destruct m as [|a [|b [|len [|c3 [|c4 [|p [|c6 payload]]]]]]];
      try discriminate.
    cbn in H3, H4, H6. injection H3 as ->. injection H4 as ->.
    injection H6 as ->. now exists a, b, len, p, payload.
  - intros [Hs [a [b [len [p [payload ->]]]]]]. cbn. auto.
Qed.

(** The emulation is entered exactly on a simulated backend for a message
    with byte 3 = 0x15, byte 4 = 0xa0 and byte 6 = 0xfe; bytes 0, 1, 2 and 5
    and the payload play no part, and the length byte is not checked. *)
Theorem enumeration_trigger_iff (zeiss_can_port : CANCommunication.t)
                                (m : bytearray) :
  enumeration_trigger zeiss_can_port m = ([], Ok true)
  <-> CANCommunication.Simulated zeiss_can_port = true
      /\ exists a b len p payload,
           m = a :: b :: len :: 0x15 :: 0xa0 :: p :: 0xfe :: payload.
Proof. exact (enumeration_trigger_iff_shape zeiss_can_port m). Qed.

Lemma process_message_emulates dev_ids a b len p payload :
  process_message (CANCommunication.mk dev_ids true)
                  (a :: b :: len :: 0x15 :: 0xa0 :: p :: 0xfe :: payload)
  = ([PrintInbound (a :: b :: len :: 0x15 :: 0xa0 :: p :: 0xfe :: payload);
      PrintFake; LogDebug]
       ++ flat_map
            (fun reply => [PrintFakeReply reply;
                           SerialWrite (encode_can29_message reply)])
            (enumeration_replies b a 0xa0 p 0xfe (length dev_ids) 0 dev_ids),
     Ok tt).
Proof.
  unfold process_message, enumeration_trigger, and_, getitem, bind, ret, emit.
  cbn [nth_error CANCommunication.Simulated CANCommunication.device_ids
       Z.eqb Pos.eqb app].
  rewrite fake_replies_spec by reflexivity. reflexivity.
Qed.

Lemma process_message_not_triggered zeiss_can_port m :
  enumeration_trigger zeiss_can_port m = ([], Ok false) ->
  process_message zeiss_can_port m
  = (PrintInbound m :: fst (CANCommunication.send_raw m),
     snd (CANCommunication.send_raw m)).
Proof.
  intros H. unfold process_message. unfold bind at 1. cbn [emit].
  unfold bind at 1. rewrite H.
  destruct (CANCommunication.send_raw m) as [t r]. reflexivity.
Qed.

Lemma process_message_trigger_raises zeiss_can_port m :
  enumeration_trigger zeiss_can_port m = ([], Raise IndexError) ->
  process_message zeiss_can_port m = ([PrintInbound m], Raise IndexError).
Proof.
  intros H. unfold process_message. unfold bind at 1. cbn [emit].
  unfold bind at 1. rewrite H. reflexivity.
Qed.

Lemma process_message_valid zeiss_can_port m :
  (7 <= length m)%nat ->
  nth_error m 2 = Some (Z.of_nat (length m) - 5) ->
  CANCommunication.Simulated zeiss_can_port
  && (nth 3 m 0 =? 0x15) && (nth 4 m 0 =? 0xa0) && (nth 6 m 0 =? 0xfe) = false ->
  process_message zeiss_can_port m
  = ([PrintInbound m;
      SendMessage (nth 0 m 0) (nth 1 m 0) (nth 3 m 0) (nth 4 m 0)
                  (nth 6 m 0) (nth 5 m 0) (skipn 7 m)],
     Ok tt).
Proof.
  intros Hlen H2 Hcond.
  assert (Htrig : enumeration_trigger zeiss_can_port m = ([], Ok false)).
  { destruct m as [|a [|b [|len [|c3 [|c4 [|p [|c6 payload]]]]]]];
      try (cbn [length] in Hlen; lia).
    destruct zeiss_can_port as [devs sim]. run_trigger.
    cbn [nth_error nth CANCommunication.Simulated] in *.
    destruct sim; [|reflexivity]. cbn [andb] in Hcond.
    destruct (c3 =? 0x15); [|reflexivity].
    destruct (c4 =? 0xa0); [|reflexivity].
    cbn [andb app] in *. now rewrite Hcond. }
  rewrite (process_message_not_triggered _ _ Htrig).
  destruct (send_raw_reaches_backend_ok m Hlen H2) as [Ht Hr].
  now rewrite Ht, Hr.
Qed.

(** A message of at least 7 bytes with a correct length byte that does not
    ask a simulated backend for its devices is handed to the backend, once
    and field by field, and nothing is written to the serial port. *)
Theorem process_message_forwards
        (zeiss_can_port : CANCommunication.t) (m : bytearray) :
  (7 <= length m)%nat ->
  nth_error m 2 = Some (Z.of_nat (length m) - 5) ->
  CANCommunication.Simulated zeiss_can_port
  && (nth 3 m 0 =? 0x15) && (nth 4 m 0 =? 0xa0) && (nth 6 m 0 =? 0xfe) = false ->
  process_message zeiss_can_port m
  = ([PrintInbound m;
      SendMessage (nth 0 m 0) (nth 1 m 0) (nth 3 m 0) (nth 4 m 0)
                  (nth 6 m 0) (nth 5 m 0) (skipn 7 m)],
     Ok tt).
Proof. exact (process_message_valid zeiss_can_port m). Qed.

Lemma process_message_forwards_witness :
  process_message (CANCommunication.mk [3; 7] true)
                  [0x19; 0x11; 0x03; 0x15; 0xa1; 0x01; 0xfe; 0x10]
  = ([PrintInbound [0x19; 0x11; 0x03; 0x15; 0xa1; 0x01; 0xfe; 0x10];
      SendMessage 0x19 0x11 0x15 0xa1 0xfe 0x01 [0x10]],
     Ok tt).
Proof.
  apply (process_message_forwards (CANCommunication.mk [3; 7] true)
           [0x19; 0x11; 0x03; 0x15; 0xa1; 0x01; 0xfe; 0x10]);
    [simpl; lia | reflexivity | reflexivity].
Defined.

Lemma serial_writes_app (t1 t2 : trace) :
  serial_writes (t1 ++ t2) = serial_writes t1 ++ serial_writes t2.
Proof. apply flat_map_app. Qed.

Lemma backend_sends_app (t1 t2 : trace) :
  backend_sends (t1 ++ t2) = backend_sends t1 ++ backend_sends t2.
Proof. apply filter_app. Qed.

(** Processing one message goes one way only: it calls the backend at most
    once, and when it does it writes nothing to the serial port; on a backend
    that is not simulated it never writes to the serial port; and when it
    writes (the emulation), it ends without an exception. *)
Theorem process_message_one_direction
        (zeiss_can_port : CANCommunication.t) (m : bytearray) :
  (length (backend_sends (fst (process_message zeiss_can_port m))) <= 1)%nat
  /\ (backend_sends (fst (process_message zeiss_can_port m)) <> [] ->
      serial_writes (fst (process_message zeiss_can_port m)) = [])
  /\ (CANCommunication.Simulated zeiss_can_port = false ->
      serial_writes (fst (process_message zeiss_can_port m)) = [])
  /\ (serial_writes (fst (process_message zeiss_can_port m)) <> [] ->
      snd (process_message zeiss_can_port m) = Ok tt).
Proof.
  destruct (enumeration_trigger_outcome zeiss_can_port m) as [H|[[|] H]].
  - rewrite (process_message_trigger_raises _ _ H). cbn.
    repeat split; try lia; try reflexivity; intros C; now contradiction C.
  - pose proof H as H'. apply enumeration_trigger_iff_shape in H'.
    destruct H' as [Hs [a [b [len [p [payload ->]]]]]].
    destruct zeiss_can_port as [devs sim]. cbn in Hs. subst sim.
    rewrite process_message_emulates. cbn [fst snd].
    rewrite backend_sends_app, serial_writes_app, backend_sends_replies.
    cbn. repeat split; try lia; try reflexivity; try discriminate.
    intros C; now contradiction C.
  - rewrite (process_message_not_triggered _ _ H). cbn [fst snd].
    destruct (send_raw_outcome m) as [_ [Hok Hno]].
    destruct (snd (CANCommunication.send_raw m)) as [[]|e].
    + rewrite (Hok eq_refl). cbn.
      repeat split; try lia; try reflexivity; intros C; now contradiction C.
    + rewrite Hno by discriminate. cbn.
      repeat split; try lia; try reflexivity; intros C; now contradiction C.
Qed.

Lemma next_encoded_exact m arrivals :
  __next__ arrivals (encode_can29_message m) = (Message m, [], arrivals).
Proof.
  rewrite <- (app_nil_r (encode_can29_message m)). apply next_encoded_frame.
Qed.

Lemma enumeration_replies_shape s d c p q n i rest :
  Forall (fun reply => exists last dev,
              reply = enumeration_reply s d c p q last dev /\ In dev rest)
         (enumeration_replies s d c p q n i rest).
Proof.
  revert i; induction rest as [|x rest IH]; intros i; simpl; constructor.
  - eexists _, x. split; [reflexivity | now left].
  - eapply Forall_impl; [|apply IH].
    intros r [last [dev [E Hin]]]. exists last, dev. split; [exact E|now right].
Qed.

(** Every frame the emulation writes decodes, in one call that empties the
    buffer, to a 9-byte message addressed back to the sender (byte 0 is the
    request's byte 1, byte 1 its byte 0) whose length byte obeys the rule
    [send_raw] checks: the synthetic replies are well-formed messages. *)
Theorem enumeration_frames_decode
        (dev_ids : list Z) (a b len p : Z) (payload : bytearray) :
  Forall (fun frame =>
            exists reply,
              __next__ [] frame = (Message reply, [], [])
              /\ length reply = 9%nat
              /\ nth_error reply 2 = Some (Z.of_nat (length reply) - 5)
              /\ nth_error reply 0 = Some b
              /\ nth_error reply 1 = Some a)
         (serial_writes
            (fst (process_message
                    (CANCommunication.mk dev_ids true)
                    (a :: b :: len :: 0x15 :: 0xa0 :: p :: 0xfe :: payload)))).
Proof.
  rewrite process_message_emulates. cbn [fst].
  rewrite serial_writes_app, serial_writes_replies. cbn [serial_writes flat_map app].
  apply Forall_map.
  eapply Forall_impl; [|apply enumeration_replies_shape].
  intros r [last [dev [-> _]]]. eexists. split; [apply next_encoded_exact|].
  repeat split.
Qed.

(** The emulation only ever builds byte sequences: with a request made of
    bytes and device ids below 255, as [find_device_ids] yields them, every
    frame written is a sequence of bytes. *)
Theorem enumeration_frames_bytes
        (dev_ids : list Z) (a b len p : Z) (payload : bytearray) :
  Forall is_byte (a :: b :: len :: 0x15 :: 0xa0 :: p :: 0xfe :: payload) ->
  Forall (fun d => 0 <= d < 255) dev_ids ->
  Forall (Forall is_byte)
         (serial_writes
            (fst (process_message
                    (CANCommunication.mk dev_ids true)
                    (a :: b :: len :: 0x15 :: 0xa0 :: p :: 0xfe :: payload)))).
Proof.
  intros Hm Hd. rewrite process_message_emulates. cbn [fst].
  rewrite serial_writes_app, serial_writes_replies. cbn [serial_writes flat_map app].
  apply Forall_map.
  pose proof (enumeration_replies_shape b a 0xa0 p 0xfe (length dev_ids)
                0%nat dev_ids) as Hshape.
  rewrite Forall_forall in *. intros r Hr.
  destruct (Hshape r Hr) as [last [dev [-> Hin]]].
  apply encode_can29_message_bytes. unfold enumeration_reply.
  assert (Ha : is_byte a) by (apply Hm; simpl; tauto).
  assert (Hb : is_byte b) by (apply Hm; simpl; tauto).
  assert (Hp : is_byte p) by (apply Hm; simpl; tauto).
  assert (Hdev : is_byte dev) by (specialize (Hd dev Hin); unfold is_byte; lia).
  rewrite Forall_forall. intros x Hx. simpl in Hx.
  destruct last; unfold is_byte;
    repeat (destruct Hx as [<-|Hx]; [try assumption; lia|]); contradiction.
Qed.

Lemma enumeration_frames_bytes_witness :
  Forall (Forall is_byte)
         (serial_writes
            (fst (process_message
                    (CANCommunication.mk [3; 7] true)
                    [0x19; 0x11; 0x02; 0x15; 0xa0; 0x01; 0xfe]))).
Proof.
  apply (enumeration_frames_bytes [3; 7] 0x19 0x11 0x02 0x01 []).
  - repeat (apply Forall_cons; [unfold is_byte; lia|]). apply Forall_nil.
  - repeat (apply Forall_cons; [lia|]). apply Forall_nil.
Defined.

(** * Further properties of the forwarder: the loop *)

Lemma forwarder_step_message zeiss_can_port m rest fuel arrivals :
  start_can_forwarder (S fuel) zeiss_can_port arrivals
                      (encode_can29_message m ++ rest)
  = match process_message zeiss_can_port m with
    | (t, Ok _) =>
        let r := start_can_forwarder fuel zeiss_can_port arrivals rest in
        mkRun (t ++ log r) (state r) (input_buffer r)
    | (t, Raise e) => mkRun t (Crashed e) rest
    end.
Proof. cbn [start_can_forwarder]. now rewrite next_encoded_frame. Qed.

Lemma forwarder_in_order zeiss_can_port good rest fuel arrivals :
  Forall (fun m => snd (process_message zeiss_can_port m) = Ok tt) good ->
  start_can_forwarder (length good + fuel) zeiss_can_port arrivals
                      (concat (map encode_can29_message good) ++ rest)
  = mkRun (flat_map (fun m => fst (process_message zeiss_can_port m)) good
           ++ log (start_can_forwarder fuel zeiss_can_port arrivals rest))
          (state (start_can_forwarder fuel zeiss_can_port arrivals rest))
          (input_buffer (start_can_forwarder fuel zeiss_can_port arrivals rest)).
Proof.
  induction 1 as [|m good Hm _ IH].
  - cbn [length concat map flat_map app Nat.add].
    now destruct (start_can_forwarder fuel zeiss_can_port arrivals rest).
  - cbn [length concat map flat_map Nat.add]. rewrite <- app_assoc.
    rewrite forwarder_step_message.
    destruct (process_message zeiss_can_port m) as [t [[]|e]];
      [|discriminate].
    rewrite IH. cbn [log state input_buffer fst]. now rewrite app_assoc.
Qed.

Lemma forwarder_idle zeiss_can_port buf l k :
  run fresh buf = Some l -> message_data l = None ->
  start_can_forwarder k zeiss_can_port [] buf
  = mkRun (repeat Sleep k) Running buf.
Proof.
  intros Hrun Hmd. induction k as [|k IH]; [reflexivity|].
  cbn [start_can_forwarder __next__].
  rewrite (scan_exhausted _ _ Hrun), Hmd, IH. reflexivity.
Qed.

Lemma scan_malformed_escape pre post c l :
  run fresh pre = Some l -> ten_found l = false -> escapable c = false ->
  scan (pre ++ 0x10 :: c :: post) = Raised c (pre ++ 0x10 :: c :: post).
Proof.
  intros Hrun Htf Hc. rewrite (scan_app _ _ _ Hrun). simpl.
  unfold loop_body at 1. rewrite Htf. simpl. unfold loop_body. simpl.
  unfold escapable in Hc.
  destruct (c =? 0x02); [discriminate|].
  destruct (c =? 0x03); [discriminate|].
  destruct (c =? 0x0d); [discriminate|].
  destruct (c =? 0x10); [discriminate|]. reflexivity.
Qed.

(** Frames queued in the buffer are processed one by one in the order they
    stand in, each exactly once, until the buffer is empty; after that the
    loop only sleeps.  (Stated for messages whose processing does not
    raise.) *)
Theorem forwarder_processes_in_order
        (zeiss_can_port : CANCommunication.t) (msgs : list bytearray)
        (k : nat) :
  Forall (fun m => snd (process_message zeiss_can_port m) = Ok tt) msgs ->
  start_can_forwarder (length msgs + k) zeiss_can_port []
                      (concat (map encode_can29_message msgs))
  = mkRun (flat_map (fun m => fst (process_message zeiss_can_port m)) msgs
           ++ repeat Sleep k)
          Running [].
Proof.
  intros H.
  rewrite <- (app_nil_r (concat (map encode_can29_message msgs))).
  rewrite (forwarder_in_order _ _ [] k [] H).
  now rewrite (forwarder_idle zeiss_can_port [] fresh k).
Qed.

Lemma forwarder_processes_in_order_witness :
  start_can_forwarder (2 + 2) (CANCommunication.mk [3; 7] true) []
    (concat (map encode_can29_message
               [[0x19; 0x11; 0x02; 0x15; 0xa0; 0x01; 0xfe];
                [0x19; 0x11; 0x03; 0x10; 0x0d; 0x01; 0x02; 0x42]]))
  = mkRun (flat_map
             (fun m => fst (process_message (CANCommunication.mk [3; 7] true) m))
             [[0x19; 0x11; 0x02; 0x15; 0xa0; 0x01; 0xfe];
              [0x19; 0x11; 0x03; 0x10; 0x0d; 0x01; 0x02; 0x42]]
           ++ repeat Sleep 2)
          Running [].
Proof.
  apply (forwarder_processes_in_order (CANCommunication.mk [3; 7] true)
           [[0x19; 0x11; 0x02; 0x15; 0xa0; 0x01; 0xfe];
            [0x19; 0x11; 0x03; 0x10; 0x0d; 0x01; 0x02; 0x42]] 2).
  repeat (apply Forall_cons; [reflexivity|]). apply Forall_nil.
Defined.

(** The forwarder stops at the first message whose processing raises: the
    messages before it have been processed in order, the exception leaves the
    loop, and every frame behind the failing one is still in the buffer. *)
Theorem forwarder_stops_at_first_failure
        (zeiss_can_port : CANCommunication.t) (good : list bytearray)
        (bad rest : bytearray) (e : exn) (fuel : nat)
        (arrivals : list bytearray) :
  Forall (fun m => snd (process_message zeiss_can_port m) = Ok tt) good ->
  snd (process_message zeiss_can_port bad) = Raise e ->
  start_can_forwarder (length good + S fuel) zeiss_can_port arrivals
                      (concat (map encode_can29_message good)
                       ++ encode_can29_message bad ++ rest)
  = mkRun (flat_map (fun m => fst (process_message zeiss_can_port m)) good
           ++ fst (process_message zeiss_can_port bad))
          (Crashed e) rest.
Proof.
  intros Hgood Hbad. rewrite (forwarder_in_order _ _ _ _ _ Hgood).
  rewrite forwarder_step_message.
  destruct (process_message zeiss_can_port bad) as [t [[]|e']];
    [discriminate|].
  cbn in Hbad. injection Hbad as ->. reflexivity.
Qed.

Lemma forwarder_stops_at_first_failure_witness :
  start_can_forwarder (1 + 3) (CANCommunication.mk [] false) [[0x41]]
    (concat (map encode_can29_message [[1; 2; 3; 4; 5; 6; 7; 8]])
     ++ encode_can29_message [0x19; 0x11] ++ [0x10; 0x02; 0x07])
  = mkRun (flat_map
             (fun m => fst (process_message (CANCommunication.mk [] false) m))
             [[1; 2; 3; 4; 5; 6; 7; 8]]
           ++ fst (process_message (CANCommunication.mk [] false)
                                   [0x19; 0x11]))
          (Crashed IndexError) [0x10; 0x02; 0x07].
Proof.
  apply (forwarder_stops_at_first_failure (CANCommunication.mk [] false)
           [[1; 2; 3; 4; 5; 6; 7; 8]] [0x19; 0x11] [0x10; 0x02; 0x07]
           IndexError 2 [[0x41]]).
  - repeat (apply Forall_cons; [reflexivity|]). apply Forall_nil.
  - reflexivity.
Defined.

(** A malformed escape in the buffer ends the forwarder: after the frames in
    front of it have been processed, the framing error leaves the loop with
    the offending bytes still at the head of the buffer. *)
Theorem forwarder_stops_at_framing_error
        (zeiss_can_port : CANCommunication.t) (good : list bytearray)
        (pre post : bytearray) (c : Z) (l : locals) (fuel : nat)
        (arrivals : list bytearray) :
  Forall (fun m => snd (process_message zeiss_can_port m) = Ok tt) good ->
  run fresh pre = Some l ->
  ten_found l = false ->
  escapable c = false ->
  start_can_forwarder (length good + S fuel) zeiss_can_port arrivals
                      (concat (map encode_can29_message good)
                       ++ pre ++ 0x10 :: c :: post)
  = mkRun (flat_map (fun m => fst (process_message zeiss_can_port m)) good)
          (Crashed (RuntimeError c)) (pre ++ 0x10 :: c :: post).
Proof.
  intros Hgood Hrun Htf Hc. rewrite (forwarder_in_order _ _ _ _ _ Hgood).
  assert (Hn : __next__ arrivals (pre ++ 0x10 :: c :: post)
               = (Raises (RuntimeError c), pre ++ 0x10 :: c :: post, arrivals)).
  { destruct arrivals; cbn [__next__];
      rewrite (scan_malformed_escape _ _ _ _ Hrun Htf Hc); reflexivity. }
  cbn [start_can_forwarder]. rewrite Hn. cbn [log state input_buffer].
  now rewrite app_nil_r.
Qed.

Lemma forwarder_stops_at_framing_error_witness :
  start_can_forwarder (1 + 1) (CANCommunication.mk [] false) []
    (concat (map encode_can29_message [[1; 2; 3; 4; 5; 6; 7; 8]])
     ++ [0x07] ++ 0x10 :: 0x05 :: [0x42])
  = mkRun (flat_map
             (fun m => fst (process_message (CANCommunication.mk [] false) m))
             [[1; 2; 3; 4; 5; 6; 7; 8]])
          (Crashed (RuntimeError 0x05)) ([0x07] ++ 0x10 :: 0x05 :: [0x42]).
Proof.
  apply (forwarder_stops_at_framing_error (CANCommunication.mk [] false)
           [[1; 2; 3; 4; 5; 6; 7; 8]] [0x07] [0x42] 0x05
           (mkLocals false None) 0 []).
  - repeat (apply Forall_cons; [reflexivity|]). apply Forall_nil.
  - reflexivity.
  - reflexivity.
  - reflexivity.
Defined.

(** Bytes that never form a frame are never thrown away.  When a pass ends
    with no message in progress, the forwarder sleeps and polls again with
    the buffer as it was, for as long as nothing arrives; when the pass ends
    inside a frame, the forwarder stays inside [__next__] and does not reach
    the sleep. *)
Theorem forwarder_keeps_unframed_bytes
        (zeiss_can_port : CANCommunication.t) (buf : bytearray) (l : locals)
        (k n : nat) :
  run fresh buf = Some l ->
  (message_data l = None ->
   start_can_forwarder k zeiss_can_port [] buf
   = mkRun (repeat Sleep k) Running buf)
  /\ (message_data l <> None ->
      start_can_forwarder (S k) zeiss_can_port (repeat [] n) buf
      = mkRun [] Blocked buf).
Proof.
  intros Hrun. split; intros Hmd.
  - now apply forwarder_idle with l.
  - cbn [start_can_forwarder]. now rewrite (next_spins buf l n Hrun Hmd).
Qed.

Lemma forwarder_keeps_unframed_bytes_witness :
  (start_can_forwarder 3 (CANCommunication.mk [] false) [] [0x41; 0x42; 0x10]
   = mkRun (repeat Sleep 3) Running [0x41; 0x42; 0x10])
  /\ (start_can_forwarder 3 (CANCommunication.mk [] false) (repeat [] 5)
                          [0x10; 0x02; 0x41]
      = mkRun [] Blocked [0x10; 0x02; 0x41]).
Proof.
  split.
  - apply (forwarder_keeps_unframed_bytes (CANCommunication.mk [] false)
             [0x41; 0x42; 0x10] (mkLocals true None) 3 0);
      reflexivity.
  - apply (forwarder_keeps_unframed_bytes (CANCommunication.mk [] false)
             [0x10; 0x02; 0x41] (mkLocals false (Some [0x41])) 2 5);
      [reflexivity | discriminate].
Defined.

(** End to end on a backend that is not simulated: for frames of messages of
    at least 7 bytes with correct length bytes, the backend receives one call
    per message, in the order of the frames, with the fields of that message;
    nothing is written to the serial port and the buffer ends up empty. *)
Theorem forwarder_passes_through
        (zeiss_can_port : CANCommunication.t) (msgs : list bytearray)
        (k : nat) :
  CANCommunication.Simulated zeiss_can_port = false ->
  Forall (fun m => (7 <= length m)%nat
                   /\ nth_error m 2 = Some (Z.of_nat (length m) - 5)) msgs ->
  backend_sends
    (log (start_can_forwarder (length msgs + k) zeiss_can_port []
            (concat (map encode_can29_message msgs))))
  = map (fun m => SendMessage (nth 0 m 0) (nth 1 m 0) (nth 3 m 0) (nth 4 m 0)
                              (nth 6 m 0) (nth 5 m 0) (skipn 7 m)) msgs
  /\ serial_writes
       (log (start_can_forwarder (length msgs + k) zeiss_can_port []
               (concat (map encode_can29_message msgs))))
     = []
  /\ state (start_can_forwarder (length msgs + k) zeiss_can_port []
              (concat (map encode_can29_message msgs)))
     = Running
  /\ input_buffer (start_can_forwarder (length msgs + k) zeiss_can_port []
                     (concat (map encode_can29_message msgs)))
     = [].
Proof.
  intros Hsim Hvalid.
  assert (Hproc : Forall (fun m =>
            process_message zeiss_can_port m
            = ([PrintInbound m;
                SendMessage (nth 0 m 0) (nth 1 m 0) (nth 3 m 0) (nth 4 m 0)
                            (nth 6 m 0) (nth 5 m 0) (skipn 7 m)],
               Ok tt)) msgs).
  { eapply Forall_impl; [|exact Hvalid]. intros m [Hlen H2].
    apply process_message_valid; [exact Hlen | exact H2 |].
    now rewrite Hsim. }
  assert (Hok : Forall (fun m => snd (process_message zeiss_can_port m) = Ok tt)
                       msgs).
  { eapply Forall_impl; [|exact Hproc]. intros m ->. reflexivity. }
  rewrite <- (app_nil_r (concat (map encode_can29_message msgs))).
  rewrite (forwarder_in_order _ _ [] k [] Hok).
  rewrite (forwarder_idle zeiss_can_port [] fresh k) by reflexivity.
  cbn [log state input_buffer].
  rewrite backend_sends_app, serial_writes_app.
  assert (Hsleep_b : backend_sends (repeat Sleep k) = [])
    by (clear; induction k; [reflexivity | simpl; assumption]).
  assert (Hsleep_s : serial_writes (repeat Sleep k) = [])
    by (clear; induction k; [reflexivity | simpl; assumption]).
  rewrite Hsleep_b, Hsleep_s, !app_nil_r.
  repeat split.
  - clear Hvalid Hok. induction Hproc as [|m msgs Hm _ IH]; [reflexivity|].
    cbn [flat_map map]. rewrite backend_sends_app, Hm, IH. reflexivity.
  - clear Hvalid Hok. induction Hproc as [|m msgs Hm _ IH]; [reflexivity|].
    cbn [flat_map]. rewrite serial_writes_app, Hm, IH. reflexivity.
Qed.

Lemma forwarder_passes_through_witness :
  backend_sends
    (log (start_can_forwarder (2 + 1) (CANCommunication.mk [3] false) []
            (concat (map encode_can29_message
                       [[0x19; 0x11; 0x02; 0x15; 0xa0; 0x01; 0xfe];
                        [0x19; 0x11; 0x03; 0x10; 0x0d; 0x01; 0x02; 0x42]]))))
  = map (fun m => SendMessage (nth 0 m 0) (nth 1 m 0) (nth 3 m 0) (nth 4 m 0)
                              (nth 6 m 0) (nth 5 m 0) (skipn 7 m))
        [[0x19; 0x11; 0x02; 0x15; 0xa0; 0x01; 0xfe];
         [0x19; 0x11; 0x03; 0x10; 0x0d; 0x01; 0x02; 0x42]]
  /\ serial_writes
       (log (start_can_forwarder (2 + 1) (CANCommunication.mk [3] false) []
               (concat (map encode_can29_message
                          [[0x19; 0x11; 0x02; 0x15; 0xa0; 0x01; 0xfe];
                           [0x19; 0x11; 0x03; 0x10; 0x0d; 0x01; 0x02; 0x42]]))))
     = []
  /\ state (start_can_forwarder (2 + 1) (CANCommunication.mk [3] false) []
              (concat (map encode_can29_message
                         [[0x19; 0x11; 0x02; 0x15; 0xa0; 0x01; 0xfe];
                          [0x19; 0x11; 0x03; 0x10; 0x0d; 0x01; 0x02; 0x42]])))
     = Running
  /\ input_buffer
       (start_can_forwarder (2 + 1) (CANCommunication.mk [3] false) []
          (concat (map encode_can29_message
                     [[0x19; 0x11; 0x02; 0x15; 0xa0; 0x01; 0xfe];
                      [0x19; 0x11; 0x03; 0x10; 0x0d; 0x01; 0x02; 0x42]])))
     = [].
Proof.
  apply (forwarder_passes_through (CANCommunication.mk [3] false)
           [[0x19; 0x11; 0x02; 0x15; 0xa0; 0x01; 0xfe];
            [0x19; 0x11; 0x03; 0x10; 0x0d; 0x01; 0x02; 0x42]] 1).
  - reflexivity.
  - repeat (apply Forall_cons; [split; [simpl; lia | reflexivity]|]).
    apply Forall_nil.
Defined.

(** A terminator 0x10 0x03 met while no frame is open costs the buffer
    everything up to and including it, noise in front of it too, and the
    call raises the framing error for 0x03; what stood behind the terminator
    is left for the next call. *)
Theorem next_stray_terminator_discards
        (pre rest : bytearray) (l : locals) (arrivals : list bytearray) :
  run fresh pre = Some l ->
  ten_found l = false ->
  message_data l = None ->
  __next__ arrivals (pre ++ 0x10 :: 0x03 :: rest)
  = (Raises (RuntimeError 0x03), rest, arrivals).
Proof.
  intros Hrun Htf Hmd.
  assert (Hs : scan (pre ++ 0x10 :: 0x03 :: rest) = Raised 0x03 rest).
  { rewrite (scan_app _ _ _ Hrun). simpl. unfold loop_body at 1.
    rewrite Htf. simpl. unfold loop_body. simpl. rewrite Hmd.
    f_equal.
    change (skipn (S (length pre + 1)) (pre ++ 0x10 :: 0x03 :: rest) = rest).
    replace (pre ++ 0x10 :: 0x03 :: rest) with ((pre ++ [0x10]) ++ 0x03 :: rest)
      by (rewrite <- app_assoc; reflexivity).
    replace (S (length pre + 1)) with (length (pre ++ [0x10%Z]) + 1)%nat
      by (rewrite length_app; simpl; lia).
    apply skipn_past. }
  destruct arrivals; cbn [__next__]; rewrite Hs; reflexivity.
Qed.

Lemma next_stray_terminator_discards_witness :
  __next__ [] ([0x41; 0x10; 0x0d; 0x42] ++ 0x10 :: 0x03 :: [0x10; 0x02; 0x07])
  = (Raises (RuntimeError 0x03), [0x10; 0x02; 0x07], []).
Proof.
  apply (next_stray_terminator_discards [0x41; 0x10; 0x0d; 0x42]
           [0x10; 0x02; 0x07] (mkLocals false None) []);
    reflexivity.
Defined.

(** * Logging *)

Lemma hex_bytes_are_words :
  forallb (fun n => is_word (HexString.of_Z (Z.of_nat n))) (seq 0 256) = true.
Proof. vm_compute. reflexivity. Qed.

Lemma hex_byte_is_word (c : Z) :
  is_byte c -> is_word (HexString.of_Z c) = true.
Proof.
  intros Hc. pose proof hex_bytes_are_words as H.
  rewrite forallb_forall in H. specialize (H (Z.to_nat c)).
  rewrite Z2Nat.id in H by (unfold is_byte in Hc; lia).
  apply H. apply in_seq. unfold is_byte in Hc. lia.
Qed.

Lemma string_append_empty (s : String.string) :
  String.append s String.EmptyString = s.
Proof. induction s as [|c s IH]; simpl; [|rewrite IH]; reflexivity. Qed.

(** What follows the first word of a line: nothing, or a space and the rest
    of the line. *)
Lemma bytearray_to_str_cons (c : Z) (r : bytearray) :
  bytearray_to_str (c :: r)
  = String.append (HexString.of_Z c)
      match r with
      | [] => String.EmptyString
      | _ :: _ => String.String Ascii.Space (bytearray_to_str r)
      end.
Proof.
  unfold bytearray_to_str. destruct r as [|d r]; simpl.
  - now rewrite string_append_empty.
  - reflexivity.
Qed.

Lemma words_split_unique (t1 t2 s1 s2 : String.string) :
  no_space t1 = true -> no_space t2 = true ->
  (s1 = String.EmptyString \/ exists s, s1 = String.String Ascii.Space s) ->
  (s2 = String.EmptyString \/ exists s, s2 = String.String Ascii.Space s) ->
  String.append t1 s1 = String.append t2 s2 ->
  t1 = t2 /\ s1 = s2.
Proof.
  revert t2. induction t1 as [|c t1 IH]; intros [|d t2] H1 H2 Hs1 Hs2 E;
    simpl in *.
  - auto.
  - exfalso. apply andb_prop in H2 as [Hd _].
    destruct Hs1 as [->|[s ->]]; [discriminate|].
    injection E as <- _. now rewrite Ascii.eqb_refl in Hd.
  - exfalso. apply andb_prop in H1 as [Hc _].
    destruct Hs2 as [->|[s ->]]; [discriminate|].
    injection E as -> _. now rewrite Ascii.eqb_refl in Hc.
  - apply andb_prop in H1 as [_ H1]. apply andb_prop in H2 as [_ H2].
    injection E as -> E. destruct (IH t2 H1 H2 Hs1 Hs2 E) as [-> ->]. auto.
Qed.

Lemma is_word_no_space (s : String.string) :
  is_word s = true -> no_space s = true /\ s <> String.EmptyString.
Proof. destruct s; [discriminate|]. intros H. split; [exact H|discriminate]. Qed.

(** The line logged for a message tells the message: two byte sequences
    with the same text are the same sequence. *)
Theorem bytearray_to_str_injective (b1 b2 : bytearray) :
  Forall is_byte b1 -> Forall is_byte b2 ->
  bytearray_to_str b1 = bytearray_to_str b2 -> b1 = b2.
Proof.
  intros H1. revert b2. induction H1 as [|c1 r1 Hc1 Hr1 IH];
    intros b2 H2 E; destruct H2 as [|c2 r2 Hc2 Hr2].
  - reflexivity.
  - exfalso. rewrite bytearray_to_str_cons in E.
    destruct (is_word_no_space _ (hex_byte_is_word c2 Hc2)) as [_ Hne].
    destruct (HexString.of_Z c2); [now apply Hne | discriminate].
  - exfalso. rewrite bytearray_to_str_cons in E.
    destruct (is_word_no_space _ (hex_byte_is_word c1 Hc1)) as [_ Hne].
    destruct (HexString.of_Z c1); [now apply Hne | discriminate].
  - rewrite !bytearray_to_str_cons in E.
    destruct (is_word_no_space _ (hex_byte_is_word c1 Hc1)) as [N1 _].
    destruct (is_word_no_space _ (hex_byte_is_word c2 Hc2)) as [N2 _].
    apply words_split_unique in E; try assumption.
    + destruct E as [Ec Er].
      apply (f_equal HexString.to_Z) in Ec.
      rewrite !HexString.to_Z_of_Z in Ec. subst c2. f_equal.
      destruct r1 as [|x r1], r2 as [|y r2]; try discriminate.
      * reflexivity.
      * injection Er as Er. apply IH; assumption.
    + destruct r1; [left; reflexivity | right; eexists; reflexivity].
    + destruct r2; [left; reflexivity | right; eexists; reflexivity].
Qed.

Lemma bytearray_to_str_injective_witness :
  [0x10; 0x02; 0xff] = [0x10; 0x02; 0xff].
Proof.
  apply (bytearray_to_str_injective [0x10; 0x02; 0xff] [0x10; 0x02; 0xff]).
  - repeat (apply Forall_cons; [unfold is_byte; lia|]). apply Forall_nil.
  - repeat (apply Forall_cons; [unfold is_byte; lia|]). apply Forall_nil.
  - reflexivity.
Defined.
